(** * ThaiFightTalk: progression and ranking engine

    A shallow embedding of the gamification helpers
    ([lib/gamification.ts]), the SQL schema functions
    ([migrations/001_initial_schema.sql], [002_rls_policies.sql]), the
    leaderboard route ([api/v1/leaderboard]) and the route logic documented
    in [modules/api-module.md], followed by the properties the engine's
    specification states about them.

    Numbers.  The TypeScript helpers take JavaScript [number]s.  They are
    modelled on integer inputs ([Z]) with exact rational arithmetic ([Q]) for
    the quotients the code forms; a value that can be [NaN] is an [option].
    The exact model agrees with IEEE doubles on the range the database can
    supply (the columns are 32-bit [INTEGER]s).  SQL [INTEGER]s are [Z] with
    the range check PostgreSQL performs written out, and a nullable column is
    an [option]. *)

From Stdlib Require Import ZArith QArith Qround Qminmax Lia List.
From stdpp Require Import base option list gmap strings sorting pretty.

Local Open Scope Z_scope.

(** ** Numeric helpers shared by the TypeScript and the SQL code *)

(** [a < b] on rationals, as a boolean. *)
Definition Qltb (a b : Q) : bool := negb (Qle_bool b a).

(** [Math.floor(Math.sqrt(q))] (and SQL [FLOOR(SQRT(q))]) for [0 <= q]. *)
Definition floor_sqrt (q : Q) : Z := Z.sqrt (Qfloor q).

(** A JavaScript number that may be [NaN]: [None] is [NaN]. *)
Definition jsnum := option Q.

(** [x < c]: every comparison with [NaN] is false. *)
Definition js_lt (x : jsnum) (c : Q) : bool :=
  match x with
  | Some q => Qltb q c
  | None => false
  end.

(** ** lib/gamification.ts *)
Module Gamification.

Definition calculateLevel (xp : Z) : Z :=
  if xp <? 0 then 1
  else floor_sqrt (inject_Z xp / 100) + 1.

Definition xpForNextLevel (currentLevel : Z) : Z :=
  let nextLevel := currentLevel + 1 in
  (nextLevel - 1) ^ 2 * 100.

Definition xpForLevel (level : Z) : Z :=
  if level <=? 1 then 0
  else (level - 1) ^ 2 * 100.



(** A [Date] object: its time value is a number of milliseconds, or [NaN]
    for an invalid date. *)
Inductive Date :=
| ValidDate (ms : Z)
| InvalidDate.

Definition getTime (d : Date) : option Z :=
  match d with
  | ValidDate ms => Some ms
  | InvalidDate => None
  end.

(** The parameter type [Date | string]. *)
Inductive DateOrString :=
| OfDate (d : Date)
| OfString (s : string).

Record StreakResult := { streak : Z; broken : bool }.

Section Streak.
(** [new Date(s)] on a string, left abstract. *)
Variable Date_parse : string -> Date.

(** [now] is the time value of [new Date()], read from the clock. *)
Definition hoursSince (now : Z) (lastActivity : DateOrString) : jsnum :=
  let lastDate :=
    match lastActivity with
    | OfString s => Date_parse s
    | OfDate d => d
    end in
  match getTime lastDate with
  | Some t => Some (inject_Z (now - t) / inject_Z (1000 * 60 * 60))%Q
  | None => None
  end.

(** [currentStreak: number = 0]: [None] is the argument left out. *)
Definition calculateStreak (now : Z) (lastActivity : DateOrString)
    (currentStreak : option Z) : StreakResult :=
  let currentStreak := default 0 currentStreak in
  let h := hoursSince now lastActivity in
  if js_lt h 24 then {| streak := currentStreak; broken := false |}
  else if js_lt h 48 then {| streak := currentStreak + 1; broken := false |}
  else {| streak := 1; broken := true |}.
End Streak.

(** A [case] label of a [switch]: strict equality on strings. *)
Definition is_case (s label : string) : bool := bool_decide (s = label).




End Gamification.

(** ** supabase/migrations/001_initial_schema.sql *)
Module Schema.

(** Identifiers are UUIDs; only their equality matters. *)
Abbreviation uuid := string (only parsing).

(** The errors PostgreSQL raises in the modelled statements. *)
Inductive sql_error :=
| numeric_value_out_of_range
| invalid_argument_for_power_function
| check_violation
| unique_violation
| foreign_key_violation.

(** A statement either completes or raises; a raised error aborts the
    enclosing transaction, so no table changes. *)
Inductive exec (A : Type) :=
| Ok (a : A)
| Raise (e : sql_error).
Arguments Ok {A} a.
Arguments Raise {A} e.

#[export] Instance exec_bind : MBind exec := fun A B k m =>
  match m with
  | Ok a => k a
  | Raise e => Raise e
  end.

(** [INTEGER] is a 32-bit signed integer; [None] is [NULL]. *)
Definition INT4_MIN : Z := - 2 ^ 31.
Definition INT4_MAX : Z := 2 ^ 31 - 1.

Definition in_int4 (z : Z) : bool := (INT4_MIN <=? z) && (z <=? INT4_MAX).

Definition int4 (z : Z) : exec (option Z) :=
  if in_int4 z then Ok (Some z) else Raise numeric_value_out_of_range.

Definition int4pl (a b : option Z) : exec (option Z) :=
  match a, b with
  | Some x, Some y => int4 (x + y)
  | _, _ => Ok None
  end.

Definition int4mul (a b : option Z) : exec (option Z) :=
  match a, b with
  | Some x, Some y => int4 (x * y)
  | _, _ => Ok None
  end.

Definition int4gt (a b : option Z) : option bool :=
  match a, b with
  | Some x, Some y => Some (y <? x)
  | _, _ => None
  end.

(** [FLOOR(SQRT(xp / 100.0)) + 1]; [SQRT] raises on a negative argument. *)
Definition calculate_level (xp : option Z) : exec (option Z) :=
  match xp with
  | None => Ok None
  | Some x =>
      if x <? 0 then Raise invalid_argument_for_power_function
      else int4 (floor_sqrt (inject_Z x / 100) + 1)
  end.

Definition xp_for_next_level (current_level : option Z) : exec (option Z) :=
  sq ← int4mul current_level current_level;
  int4mul sq (Some 100).

(** A row of [users]: the columns the progression engine reads or writes
    ([email], [avatar_url] and [org_id] are left out).  Timestamps are
    instants in milliseconds. *)
Record user_row := {
  display_name : option string;
  xp : option Z;
  streak : option Z;
  current_level : option Z;
  last_activity : option Z;
  created_at : option Z;
  updated_at : option Z
}.

(** A row of [user_badges]. *)
Record user_badge_row := {
  ub_user_id : uuid;
  ub_badge_id : uuid;
  earned_at : Z
}.

(** A [CHECK (col >= bound)] constraint: satisfied by [NULL]. *)
Definition check_ge (v : option Z) (bound : Z) : bool :=
  match v with
  | None => true
  | Some z => bound <=? z
  end.

Definition users_checks (r : user_row) : bool :=
  check_ge (xp r) 0 && check_ge (streak r) 0 && check_ge (current_level r) 1.

(** Trigger [update_users_updated_at]: [NEW.updated_at = NOW()]. *)
Definition update_updated_at_column (now : Z) (r : user_row) : user_row :=
  {| display_name := display_name r; xp := xp r; streak := streak r;
     current_level := current_level r; last_activity := last_activity r;
     created_at := created_at r; updated_at := Some now |}.

(** [UPDATE users SET ... WHERE id = id]: one statement; the new row goes
    through the trigger and the table's checks. *)
Definition update_users (now : Z) (id : uuid) (set : user_row -> user_row)
    (tbl : gmap uuid user_row) : exec (gmap uuid user_row) :=
  match tbl !! id with
  | None => Ok tbl
  | Some r =>
      let r' := update_updated_at_column now (set r) in
      if users_checks r' then Ok (<[id := r']> tbl) else Raise check_violation
  end.

(** [SET xp = v_new_xp, current_level = v_new_level, updated_at = NOW()] *)
Definition set_xp_level (now : Z) (v_new_xp v_new_level : option Z)
    (r : user_row) : user_row :=
  {| display_name := display_name r; xp := v_new_xp; streak := streak r;
     current_level := v_new_level; last_activity := last_activity r;
     created_at := created_at r; updated_at := Some now |}.

Record award_row := {
  new_xp : option Z;
  new_level : option Z;
  leveled_up : option bool
}.

(** The local variables of [award_xp] after its [SELECT ... INTO]: with no
    matching row both are [NULL]. *)
Definition award_select (p_user_id : uuid) (tbl : gmap uuid user_row)
    : option Z * option Z :=
  match tbl !! p_user_id with
  | Some r => (xp r, current_level r)
  | None => (None, None)
  end.

(** The rest of [award_xp], from the values the [SELECT] stored. *)
Definition award_update (now : Z) (p_user_id : uuid) (p_xp_amount : option Z)
    (old : option Z * option Z) (tbl : gmap uuid user_row)
    : exec (award_row * gmap uuid user_row) :=
  let '(v_old_xp, v_old_level) := old in
  v_new_xp ← int4pl v_old_xp p_xp_amount;
  v_new_level ← calculate_level v_new_xp;
  tbl' ← update_users now p_user_id
             (set_xp_level now v_new_xp v_new_level) tbl;
  Ok ({| new_xp := v_new_xp; new_level := v_new_level;
         leveled_up := int4gt v_new_level v_old_level |}, tbl').

Definition award_xp (now : Z) (p_user_id : uuid) (p_xp_amount : option Z)
    (tbl : gmap uuid user_row) : exec (award_row * gmap uuid user_row) :=
  award_update now p_user_id p_xp_amount (award_select p_user_id tbl) tbl.

(** [INSERT INTO user_badges (user_id, badge_id)]: the primary key
    [(user_id, badge_id)] is checked when the row is inserted, the foreign
    keys to [users] and [badges] at the end of the statement. *)
Definition same_key (a b : user_badge_row) : bool :=
  bool_decide (ub_user_id a = ub_user_id b)
  && bool_decide (ub_badge_id a = ub_badge_id b).

Definition insert_user_badge (now : Z) (user_ids badge_ids : list uuid)
    (user_id badge_id : uuid) (tbl : list user_badge_row)
    : exec (list user_badge_row) :=
  let row := {| ub_user_id := user_id; ub_badge_id := badge_id;
                earned_at := now |} in
  if existsb (same_key row) tbl then Raise unique_violation
  else if bool_decide (user_id ∈ user_ids) && bool_decide (badge_id ∈ badge_ids)
  then Ok (tbl ++ [row])
  else Raise foreign_key_violation.

End Schema.

(** ** The leaderboard: route [GET /api/v1/leaderboard] and SQL view

    [tbl] stands for the rows of [users] the queries get to see. *)
Module Leaderboard.
Import Schema.

(** [ORDER BY col DESC] puts [NULL]s first, [ORDER BY col ASC] last. *)
Definition desc_leb (a b : option Z) : bool :=
  match a, b with
  | None, _ => true
  | Some _, None => false
  | Some x, Some y => y <=? x
  end.

Definition asc_leb (a b : option Z) : bool :=
  match a, b with
  | _, None => true
  | None, Some _ => false
  | Some x, Some y => x <=? y
  end.

Definition by_xp_desc (a b : uuid * user_row) : Prop :=
  desc_leb (xp a.2) (xp b.2).

(** The rows of [.from('users').select(..).order('xp', { ascending: false })]:
    the table's rows sorted on [xp] alone; PostgreSQL leaves the order of
    rows with equal [xp] open, so this is a relation. *)
Definition ordered_by_xp (tbl : gmap uuid user_row)
    (rows : list (uuid * user_row)) : Prop :=
  rows ≡ₚ map_to_list tbl ∧ Sorted by_xp_desc rows.

(** [.range((page - 1) * limit, page * limit - 1)], for [1 <= page]. *)
Definition range {A} (page limit : nat) (rows : list A) : list A :=
  take limit (drop ((page - 1) * limit) rows).

Record entry := {
  rank : nat;
  user_id : uuid;
  e_display_name : option string;
  e_xp : option Z;
  level : option Z;
  e_streak : option Z
}.

(** [users.map((u, index) => ({ rank: (page - 1) * limit + index + 1, .. }))] *)
Definition leaderboard (page limit : nat) (users : list (uuid * user_row))
    : list entry :=
  imap (fun index u =>
          {| rank := ((page - 1) * limit + index + 1)%nat;
             user_id := u.1;
             e_display_name := display_name u.2;
             e_xp := xp u.2;
             level := current_level u.2;
             e_streak := streak u.2 |}) users.

(** [.gt('xp', v)]: a [NULL] never compares greater. *)
Definition gt_xp (v : Z) (r : uuid * user_row) : bool :=
  match xp r.2 with
  | Some x => v <? x
  | None => false
  end.

(** [userProfile?.xp || 0], then the count of rows with more [xp], plus 1. *)
Definition currentUserRank (tbl : gmap uuid user_row) (user : uuid) : nat :=
  let userProfile := tbl !! user in
  let mine := default 0 (userProfile ≫= xp) in
  let count := length (filter (fun r => gt_xp mine r = true) (map_to_list tbl)) in
  (count + 1)%nat.

Record response := {
  data : list entry;
  meta_page : nat;
  meta_limit : nat;
  total : nat;
  current_user_rank : nat
}.

(** The handler, for an authenticated [user]: what it may answer. *)
Definition GET (tbl : gmap uuid user_row) (user : uuid) (page limit : nat)
    (resp : response) : Prop :=
  ∃ rows, ordered_by_xp tbl rows ∧
    resp = {| data := leaderboard page limit (range page limit rows);
              meta_page := page;
              meta_limit := limit;
              total := size tbl;
              current_user_rank := currentUserRank tbl user |}.

(** The view [leaderboard] of 002_rls_policies.sql:
    [ROW_NUMBER() OVER (ORDER BY u.xp DESC, u.created_at ASC) as rank]. *)
Definition view_leb (a b : uuid * user_row) : bool :=
  negb (desc_leb (xp b.2) (xp a.2))
  || (desc_leb (xp a.2) (xp b.2)
      && asc_leb (created_at a.2) (created_at b.2)).

Definition view_le (a b : uuid * user_row) : Prop := view_leb a b.

Record view_row := {
  v_id : uuid;
  v_xp : option Z;
  v_current_level : option Z;
  v_streak : option Z;
  badge_count : nat;
  v_rank : nat
}.

(** The window is numbered in its own order, which is also an order on
    [xp] descending, and the first 100 rows are kept.  Rows that agree on
    both keys are numbered in the order the sort leaves them. *)
Definition leaderboard_view (tbl : gmap uuid user_row)
    (ubs : list user_badge_row) : list view_row :=
  take 100
    (imap (fun i u =>
             {| v_id := u.1;
                v_xp := xp u.2;
                v_current_level := current_level u.2;
                v_streak := streak u.2;
                badge_count :=
                  length (remove_dups
                    (ub_badge_id <$>
                       filter (fun ub => ub_user_id ub = u.1) ubs));
                v_rank := S i |})
          (merge_sort view_le (map_to_list tbl))).

Definition view_rank (tbl : gmap uuid user_row) (ubs : list user_badge_row)
    (id : uuid) : option nat :=
  v_rank <$> find (fun r => bool_decide (v_id r = id)) (leaderboard_view tbl ubs).

End Leaderboard.

(** ** Route logic of modules/api-module.md *)
Module ApiModule.
Import Schema.

(** A JavaScript call either returns or throws (here only the [TypeError]
    of reading a property of [null]). *)
Inductive js_result (A : Type) :=
| Returned (a : A)
| Thrown.
Arguments Returned {A} a.
Arguments Thrown {A}.

(** [a >= b] where [a] comes from a nullable column ([null] counts as 0)
    and [b] from a JSON field that may be missing ([undefined] compares
    false). *)
Definition js_ge (a b : option Z) : bool :=
  match b with
  | Some y => default 0 a >=? y
  | None => false
  end.

(** [badges.criteria], a JSON object read through [type] and [count]. *)
Record criteria := { c_type : string; c_count : option Z }.

Record badge_row := {
  b_id : uuid;
  b_name : string;
  b_criteria : criteria
}.

Record user_lesson_row := {
  ul_user_id : uuid;
  ul_lesson_id : uuid;
  completed : option bool
}.

Record database := {
  users : gmap uuid user_row;
  badges : list badge_row;
  user_lessons : list user_lesson_row;
  user_badges : list user_badge_row
}.

(** A user selected together with its [user_lessons] and [user_badges]. *)
Record user_with := {
  u_row : user_row;
  u_lessons : list user_lesson_row;
  u_badges : list user_badge_row
}.


Definition evaluateCriteria (c : criteria) (user : user_with) : bool :=
  if Gamification.is_case (c_type c) "lessons_completed" then
    js_ge (Some (Z.of_nat (length
             (filter (fun ul => completed ul = Some true) (u_lessons user)))))
          (c_count c)
  else if Gamification.is_case (c_type c) "streak" then
    js_ge (streak (u_row user)) (c_count c)
  else if Gamification.is_case (c_type c) "xp" then
    js_ge (xp (u_row user)) (c_count c)
  else false.

(** [await supabase.from('user_badges').insert(..)]: the client returns an
    [{ error }] object that the caller does not look at. *)
Definition insert_ignoring_error (now : Z) (user_ids badge_ids : list uuid)
    (userId badgeId : uuid) (tbl : list user_badge_row) : list user_badge_row :=
  match insert_user_badge now user_ids badge_ids userId badgeId tbl with
  | Ok tbl' => tbl'
  | Raise _ => tbl
  end.

(** The [for] loop of [checkBadgeEligibility]: [user] is the snapshot read
    before the loop, [tbl] the live [user_badges] table. *)
Fixpoint badge_loop (now : Z) (user_ids badge_ids : list uuid) (userId : uuid)
    (user : user_with) (allBadges : list badge_row)
    (tbl : list user_badge_row) : list user_badge_row * list badge_row :=
  match allBadges with
  | [] => (tbl, [])
  | badge :: rest =>
      let alreadyEarned :=
        existsb (fun ub => bool_decide (ub_badge_id ub = b_id badge))
                (u_badges user) in
      if alreadyEarned then
        badge_loop now user_ids badge_ids userId user rest tbl
      else if evaluateCriteria (b_criteria badge) user then
        let tbl' :=
          insert_ignoring_error now user_ids badge_ids userId (b_id badge) tbl in
        let '(tbl'', newBadges) :=
          badge_loop now user_ids badge_ids userId user rest tbl' in
        (tbl'', badge :: newBadges)
      else badge_loop now user_ids badge_ids userId user rest tbl
  end.


(** *** [POST /api/v1/lessons/:lessonId/complete], steps 2 to 4 *)

(** A JSON number sent for an [INTEGER] column: accepted only when it is a
    whole number in range. *)
Definition as_int4 (q : Q) : option Z :=
  let r := Qred q in
  if bool_decide (Qden r = 1%positive) && in_int4 (Qnum r) then Some (Qnum r)
  else None.

Definition set_xp_activity (v : Z) (now : Z) (r : user_row) : user_row :=
  {| display_name := display_name r; xp := Some v; streak := streak r;
     current_level := current_level r; last_activity := Some now;
     created_at := created_at r; updated_at := updated_at r |}.

Definition set_level (v : Z) (r : user_row) : user_row :=
  {| display_name := display_name r; xp := xp r; streak := streak r;
     current_level := Some v; last_activity := last_activity r;
     created_at := created_at r; updated_at := updated_at r |}.

Record completion := {
  xp_earned : Q;
  new_total_xp : option Z;
  level_up : bool;
  c_new_level : option Z
}.

(** [user] is the row the handler loaded beforehand, [xp_reward] the
    lesson's reward.  The result carries the successive contents of
    [users], one per [update] that went through, oldest first. *)
Definition complete_lesson (now : Z) (userId : uuid) (user : user_row)
    (xp_reward score : Z) (tbl : gmap uuid user_row)
    : js_result (completion * list (gmap uuid user_row)) :=
  (* 2. Calculate XP earned *)
  let xp_earned := (inject_Z xp_reward * (inject_Z score / 100))%Q in
  (* 3. Update user XP *)
  let updated :=
    v ← as_int4 (inject_Z (default 0%Z (xp user)) + xp_earned)%Q;
    match update_users now userId (set_xp_activity v now) tbl with
    | Ok tbl1 => r ← tbl1 !! userId; Some (r, tbl1)
    | Raise _ => None
    end in
  match updated with
  | None => Thrown
  | Some (user', tbl1) =>
      (* 4. Check for level up *)
      let newLevel := Gamification.calculateLevel (default 0 (xp user')) in
      let leveledUp := default 0 (current_level user') <? newLevel in
      let writes :=
        if leveledUp then
          match update_users now userId (set_level newLevel) tbl1 with
          | Ok tbl2 => [tbl1; tbl2]
          | Raise _ => [tbl1]
          end
        else [tbl1] in
      Returned ({| xp_earned := xp_earned;
                   new_total_xp := xp user';
                   level_up := leveledUp;
                   c_new_level := if leveledUp then Some newLevel else None |},
                writes)
  end.

End ApiModule.

(** ** Concurrent calls of [award_xp]

    PostgreSQL runs the statements of a call one at a time and, at the
    default isolation level, lets the statements of other transactions run in
    between: a call is two steps, its [SELECT] and the rest up to its
    [UPDATE]. *)
Module Interleaving.
Import Schema.

Inductive call :=
| Called (now : Z) (p_user_id : uuid) (p_xp_amount : option Z)
| Selected (now : Z) (p_user_id : uuid) (p_xp_amount : option Z)
           (old : option Z * option Z)
| Finished (r : exec award_row).

Definition step (c : call) (tbl : gmap uuid user_row)
    : call * gmap uuid user_row :=
  match c with
  | Called now u a => (Selected now u a (award_select u tbl), tbl)
  | Selected now u a old =>
      match award_update now u a old tbl with
      | Ok (r, tbl') => (Finished (Ok r), tbl')
      | Raise e => (Finished (Raise e), tbl)
      end
  | Finished r => (c, tbl)
  end.

(** A schedule names, step by step, the call that runs next. *)
Fixpoint run (schedule : list nat) (calls : list call)
    (tbl : gmap uuid user_row) : list call * gmap uuid user_row :=
  match schedule with
  | [] => (calls, tbl)
  | i :: rest =>
      match calls !! i with
      | None => run rest calls tbl
      | Some c =>
          let '(c', tbl') := step c tbl in
          run rest (<[i := c']> calls) tbl'
      end
  end.

(** The calls applied one after the other, none overlapping another. *)
Fixpoint run_sequentially (calls : list (Z * uuid * option Z))
    (tbl : gmap uuid user_row) : gmap uuid user_row :=
  match calls with
  | [] => tbl
  | (now, u, a) :: rest =>
      match award_xp now u a tbl with
      | Ok (_, tbl') => run_sequentially rest tbl'
      | Raise _ => run_sequentially rest tbl
      end
  end.

End Interleaving.

(** ** The specification's vocabulary *)
Module Spec.
Import Schema.

(** [ResolveStreak] as the specification words it, on the elapsed hours
    ([None]: no prior activity); the flag is [changed]. *)
Definition ResolveStreak (h : option Q) (currentStreak : Z) : Z * bool :=
  match h with
  | None => (1, true)
  | Some h =>
      if Qltb h 24 then (currentStreak, false)
      else if Qltb h 48 then (currentStreak + 1, true)
      else (1, true)
  end.

(** Reading the flag [calculateStreak] returns as [changed]. *)
Definition same_answer (r : Gamification.StreakResult) (s : Z * bool) : Prop :=
  Gamification.streak r = s.1 ∧ Gamification.broken r = s.2.

(** Milliseconds in [n] hours. *)
Definition hours (n : Z) : Z := n * (1000 * 60 * 60).

(** A [Date] parser that accepts no string. *)
Definition parse_nothing (s : string) : Gamification.Date :=
  Gamification.InvalidDate.

(** A level is an integer from 1 up. *)
Definition is_level (l : Z) : Prop := 1 <= l.


(** I1 on one row: the stored level is the level of the stored points. *)
Definition level_consistent (r : user_row) : Prop :=
  calculate_level (xp r) = Ok (current_level r).

(** I2: the awards of one (account, badge) pair. *)
Definition awards_of (user_id badge_id : uuid) (tbl : list user_badge_row)
    : list user_badge_row :=
  filter (fun ub => ub_user_id ub = user_id ∧ ub_badge_id ub = badge_id) tbl.

Definition pk (ub : user_badge_row) : uuid * uuid :=
  (ub_user_id ub, ub_badge_id ub).

(** The contents [user_badges] can have: it starts empty and changes
    through award insertions, whoever issues them and in whatever order, and
    through the [ON DELETE CASCADE] of its two foreign keys. *)
Inductive reachable : list user_badge_row -> Prop :=
| reachable_empty : reachable []
| reachable_insert now user_ids badge_ids user_id badge_id tbl :
    reachable tbl ->
    reachable (ApiModule.insert_ignoring_error now user_ids badge_ids
                 user_id badge_id tbl)
| reachable_delete_user user_id tbl :
    reachable tbl ->
    reachable (filter (fun ub => ub_user_id ub ≠ user_id) tbl)
| reachable_delete_badge badge_id tbl :
    reachable tbl ->
    reachable (filter (fun ub => ub_badge_id ub ≠ badge_id) tbl).

(** Every call runs its two statements back to back: 0, 0, 1, 1, ... *)
Fixpoint back_to_back (first n : nat) : list nat :=
  match n with
  | O => []
  | S n' => first :: first :: back_to_back (S first) n'
  end.

Definition sum_awards (amounts : list Z) : Z := foldr Z.add 0 amounts.

(** The calls of a batch of awards to one account, as issued. *)
Definition issued (user_id : uuid) (awards : list (Z * Z)) : list Interleaving.call :=
  (fun c => Interleaving.Called c.1 user_id (Some c.2)) <$> awards.

Definition in_order (user_id : uuid) (awards : list (Z * Z))
    : list (Z * uuid * option Z) :=
  (fun c => (c.1, user_id, Some c.2)) <$> awards.

(** *** Sample data *)

(** An account with the given points, level and creation instant. *)
Definition account (points lvl created : Z) : user_row :=
  {| display_name := None; xp := Some points; streak := Some 0;
     current_level := Some lvl; last_activity := None;
     created_at := Some created; updated_at := Some created |}.

(** The table holding the single account ["u"]. *)
Definition only_u (points lvl : Z) : gmap uuid user_row :=
  {["u"%string := account points lvl 0]}.

(** A (500 points, created first), B (500 points, created second) and
    C (700 points). *)
Definition abc : gmap uuid user_row :=
  <["A"%string := account 500 3 1]>
    (<["B"%string := account 500 3 2]>
       (<["C"%string := account 700 3 3]> ∅)).

End Spec.

(** ** Further routes and pages *)
Module Routes.
Import Schema ApiModule.

(** [v || d] on a nullable number: [null] and [0] give [d]. *)
Definition js_or (v : option Z) (d : Z) : Z :=
  match v with
  | Some z => if z =? 0 then d else z
  | None => d
  end.

(** *** [GET /api/v1/badges] *)

Record enriched_badge := {
  eb_badge : badge_row;
  earned : bool;
  eb_earned_at : option Z
}.

(** [new Map(entries)]: a later entry replaces an earlier one with its key. *)
Definition earnedAtMap (userBadges : list user_badge_row) : gmap uuid Z :=
  foldl (fun m ub => <[ub_badge_id ub := earned_at ub]> m) ∅ userBadges.

(** [badges] is the catalog as the query returned it, [awards] the table
    [user_badges]; [earned_at] is [None] where [earnedAtMap.get] finds
    nothing (the route's [null], the profile page's [undefined]). *)
Definition enrichedBadges (user : uuid) (badges : list badge_row)
    (awards : list user_badge_row) : list enriched_badge :=
  let userBadges := filter (fun ub => ub_user_id ub = user) awards in
  let userBadgeIds : gset uuid := list_to_set (ub_badge_id <$> userBadges) in
  (fun badge =>
     {| eb_badge := badge;
        earned := bool_decide (b_id badge ∈ userBadgeIds);
        eb_earned_at := earnedAtMap userBadges !! b_id badge |}) <$> badges.

(** The dashboard's count of earned badges: the rows of [user_badges] with
    the user's id. *)
Definition badgesEarned (user : uuid) (awards : list user_badge_row) : nat :=
  length (filter (fun ub => ub_user_id ub = user) awards).

(** *** [GET /api/v1/camps] *)

Record camp_row := {
  camp_id : uuid;
  unlock_level : option Z
}.

(** [None]: the user's row is missing and the handler throws [userError]. *)
Definition enrichedCamps (user : uuid) (users : gmap uuid user_row)
    (camps : list camp_row) : option (list (camp_row * bool)) :=
  userData ← users !! user;
  let userLevel := js_or (current_level userData) 1 in
  Some ((fun camp => (camp, userLevel >=? js_or (unlock_level camp) 1)) <$> camps).

(** *** [POST /api/v1/progress/streak] (modules/api-module.md) *)

(** The answer [{ streak, streak_maintained, streak_broken }]; a flag the
    handler leaves out of the object reads [false]. *)
Record streak_response := {
  sr_streak : option Z;
  streak_maintained : bool;
  streak_broken : bool
}.

Definition set_streak (v : Z) (r : user_row) : user_row :=
  {| display_name := display_name r; xp := xp r; streak := Some v;
     current_level := current_level r; last_activity := last_activity r;
     created_at := created_at r; updated_at := updated_at r |}.

(** [.update({ streak: v })], whose [{ error }] the caller does not look
    at: a value that does not fit the [INTEGER] column or a row that fails a
    check leaves the table as it is. *)
Definition update_streak (now : Z) (id : uuid) (v : Z)
    (tbl : gmap uuid user_row) : gmap uuid user_row :=
  if in_int4 v then
    match update_users now id (set_streak v) tbl with
    | Ok tbl' => tbl'
    | Raise _ => tbl
    end
  else tbl.

(** [user] is the row the handler loaded; [new Date(null)] is the epoch. *)
Definition streak_route (now : Z) (userId : uuid) (user : user_row)
    (tbl : gmap uuid user_row) : streak_response * gmap uuid user_row :=
  let lastActivity := default 0 (last_activity user) in
  let hoursSinceLastActivity :=
    (inject_Z (now - lastActivity) / inject_Z (1000 * 60 * 60))%Q in
  if Qltb hoursSinceLastActivity 24 then
    ({| sr_streak := streak user; streak_maintained := true;
        streak_broken := false |}, tbl)
  else if Qltb hoursSinceLastActivity 48 then
    let newStreak := default 0 (streak user) + 1 in
    ({| sr_streak := Some newStreak; streak_maintained := true;
        streak_broken := false |},
     update_streak now userId newStreak tbl)
  else
    ({| sr_streak := Some 1; streak_maintained := false;
        streak_broken := true |},
     update_streak now userId 1 tbl).

(** *** The leaderboard page, [app/(dashboard)/leaderboard/page.tsx] *)

(** [leaderboard.findIndex(u => u.id === user.id) + 1] over the first 50
    rows; 0 when the user is not among them. *)
Definition pageUserRank (user : uuid) (users : list (uuid * user_row)) : nat :=
  match list_find (fun u => u.1 = user) (take 50 users) with
  | Some (index, _) => (index + 1)%nat
  | None => 0%nat
  end.

Definition LeaderboardPage (tbl : gmap uuid user_row) (user : uuid)
    (currentUserRank : nat) : Prop :=
  ∃ rows, Leaderboard.ordered_by_xp tbl rows
          ∧ currentUserRank = pageUserRank user rows.

(** *** [components/gamification/XPBar.tsx] and its use on the profile page *)




End Routes.

(** ** Notions used in the properties below *)
Module Notions.
Import Schema Interleaving.

(** The account a pending call works on. *)
Definition call_account (c : call) : option uuid :=
  match c with
  | Called _ u _ => Some u
  | Selected _ u _ _ => Some u
  | Finished _ => None
  end.

(** The integrity constraints of [users]: every row passes the checks. *)
Definition users_valid (tbl : gmap uuid user_row) : Prop :=
  ∀ id r, tbl !! id = Some r -> users_checks r = true.

(** No account has [NULL] points. *)
Definition xp_not_null (tbl : gmap uuid user_row) : Prop :=
  ∀ id r, tbl !! id = Some r -> is_Some (xp r).

(** No two accounts have the same points. *)
Definition xp_distinct (tbl : gmap uuid user_row) : Prop :=
  ∀ id1 id2 r1 r2, tbl !! id1 = Some r1 -> tbl !! id2 = Some r2 ->
    xp r1 = xp r2 -> id1 = id2.

(** A database with one account of 1000 points, one completed lesson and
    no award, and a catalog of three badges, the last of a type the badge
    check does not know. *)
Definition sample_db : ApiModule.database :=
  {| ApiModule.users := {["u"%string := Spec.account 1000 4 0]};
     ApiModule.badges :=
       [{| ApiModule.b_id := "first"; ApiModule.b_name := "First Step";
           ApiModule.b_criteria :=
             {| ApiModule.c_type := "lessons_completed";
                ApiModule.c_count := Some 1 |} |};
        {| ApiModule.b_id := "week"; ApiModule.b_name := "Week Warrior";
           ApiModule.b_criteria :=
             {| ApiModule.c_type := "streak"; ApiModule.c_count := Some 7 |} |};
        {| ApiModule.b_id := "master"; ApiModule.b_name := "XP Master";
           ApiModule.b_criteria :=
             {| ApiModule.c_type := "xp"; ApiModule.c_count := Some 1000 |} |};
        {| ApiModule.b_id := "quick"; ApiModule.b_name := "Quick Learner";
           ApiModule.b_criteria :=
             {| ApiModule.c_type := "lessons_per_day";
                ApiModule.c_count := Some 5 |} |}];
     ApiModule.user_lessons :=
       [{| ApiModule.ul_user_id := "u"; ApiModule.ul_lesson_id := "l1";
           ApiModule.completed := Some true |}];
     ApiModule.user_badges := [] |}.

(** An account with a streak and a last activity, and the table holding it
    as ["u"]. *)
Definition only_u_row (s last : Z) : user_row :=
  {| display_name := None; xp := Some 0; streak := Some s;
     current_level := Some 1; last_activity := Some last;
     created_at := Some 0; updated_at := Some last |}.

Definition only_u_streak (s last : Z) : gmap uuid user_row :=
  {["u"%string := only_u_row s last]}.


End Notions.

(** * Properties *)

(** ** Arithmetic of the level curve *)
Section LevelCurve.
Import Gamification.

Lemma Qltb_lt (a b : Q) : Qltb a b = true <-> (a < b)%Q.
Proof.
  unfold Qltb. rewrite negb_true_iff. split.
  - intros H. apply Qnot_le_lt. intros Hle.
    apply Qle_bool_iff in Hle. congruence.
  - intros H. destruct (Qle_bool b a) eqn:E; [|reflexivity].
    apply Qle_bool_iff in E. exfalso. exact (Qlt_not_le _ _ H E).
Qed.

Lemma Qltb_ge (a b : Q) : Qltb a b = false <-> (b <= a)%Q.
Proof.
  unfold Qltb. rewrite negb_false_iff. apply Qle_bool_iff.
Qed.

(** The quotient [xp / 100] is rounded down before the integer root. *)
Lemma floor_sqrt_hundredth (x : Z) :
  floor_sqrt (inject_Z x / 100) = Z.sqrt (x / 100).
Proof.
  unfold floor_sqrt. f_equal. cbn. now rewrite Z.mul_1_r.
Qed.

(** [floor_sqrt] is the floor of the real square root: [n] is the result
    exactly when [n² <= xp / 100 < (n + 1)²]. *)
Lemma floor_sqrt_spec (x n : Z) :
  0 <= x -> 0 <= n ->
  floor_sqrt (inject_Z x / 100) = n <-> n ^ 2 * 100 <= x < (n + 1) ^ 2 * 100.
Proof.
  intros Hx Hn. rewrite floor_sqrt_hundredth.
  assert (Hq : 0 <= x / 100) by (apply Z.div_pos; lia).
  pose proof (Z.sqrt_spec (x / 100) Hq) as Hs. cbv zeta in Hs.
  pose proof (Z.sqrt_nonneg (x / 100)) as Hs0.
  pose proof (Z.mul_div_le x 100 ltac:(lia)) as Hlo.
  pose proof (Z.mul_succ_div_gt x 100 ltac:(lia)) as Hhi.
  split.
  - intros <-. nia.
  - intros [H1 H2]. apply Z.sqrt_unique. nia.
Qed.

Lemma calculateLevel_nonneg (xp : Z) :
  0 <= xp -> calculateLevel xp = Z.sqrt (xp / 100) + 1.
Proof.
  intros H. unfold calculateLevel.
  destruct (Z.ltb_spec xp 0); [lia|]. now rewrite floor_sqrt_hundredth.
Qed.

Lemma calculateLevel_negative (xp : Z) : xp < 0 -> calculateLevel xp = 1.
Proof.
  intros H. unfold calculateLevel. destruct (Z.ltb_spec xp 0); [reflexivity|lia].
Qed.

Lemma calculateLevel_ge_1 (xp : Z) : 1 <= calculateLevel xp.
Proof.
  destruct (Z.lt_ge_cases xp 0) as [H|H].
  - rewrite calculateLevel_negative by assumption. lia.
  - rewrite calculateLevel_nonneg by assumption.
    pose proof (Z.sqrt_nonneg (xp / 100)). lia.
Qed.

Lemma calculateLevel_mono (p1 p2 : Z) :
  p1 <= p2 -> calculateLevel p1 <= calculateLevel p2.
Proof.
  intros H. destruct (Z.lt_ge_cases p1 0) as [H1|H1].
  - rewrite (calculateLevel_negative p1) by assumption.
    apply calculateLevel_ge_1.
  - rewrite !calculateLevel_nonneg by lia.
    apply Z.add_le_mono_r, Z.sqrt_le_mono, Z.div_le_mono; lia.
Qed.

Lemma xpForLevel_ge_1 (level : Z) :
  1 <= level -> xpForLevel level = (level - 1) ^ 2 * 100.
Proof.
  intros H. unfold xpForLevel. destruct (Z.leb_spec level 1); [|reflexivity].
  replace level with 1 by lia. reflexivity.
Qed.

Lemma xpForLevel_le_1 (level : Z) : level <= 1 -> xpForLevel level = 0.
Proof.
  intros H. unfold xpForLevel. destruct (Z.leb_spec level 1); [reflexivity|lia].
Qed.

Lemma xpForLevel_strict (l1 l2 : Z) :
  1 <= l1 -> l1 < l2 -> xpForLevel l1 < xpForLevel l2.
Proof.
  intros H1 H2. rewrite !xpForLevel_ge_1 by lia. nia.
Qed.

Lemma calculateLevel_xpForLevel (level : Z) :
  1 <= level -> calculateLevel (xpForLevel level) = level.
Proof.
  intros H. rewrite xpForLevel_ge_1 by assumption.
  rewrite calculateLevel_nonneg by nia.
  rewrite Z.div_mul by lia.
  replace ((level - 1) ^ 2) with ((level - 1) * (level - 1)) by lia.
  rewrite Z.sqrt_square by lia. lia.
Qed.



End LevelCurve.

(** ** The Level Function *)
Section LevelFunction.
Import Gamification Schema Spec.



(** C7, as stated, fails: on a negative input [calculateLevel] answers with
    an ordinary level. *)
Lemma negative_points_not_rejected :
  ¬ (∀ points, points < 0 -> ¬ is_level (calculateLevel points)).
Proof.
  intros H. apply (H (-5)); [lia|]. unfold is_level. cbn. lia.
Qed.

(** C7, amended.  On every negative input the TypeScript [calculateLevel]
    returns level 1 (its guard clamps), while the SQL [calculate_level]
    raises an error. *)
Theorem negative_points_clamped_or_raised (points : Z) :
  points < 0 ->
  calculateLevel points = 1
  ∧ calculate_level (Some points) = Raise invalid_argument_for_power_function.
Proof.
  intros H. split; [now apply calculateLevel_negative|].
  unfold calculate_level. destruct (Z.ltb_spec points 0); [reflexivity|lia].
Qed.

Lemma negative_points_clamped_or_raised_witness :
  calculateLevel (-5) = 1
  ∧ calculate_level (Some (-5)) = Raise invalid_argument_for_power_function.
Proof. apply (negative_points_clamped_or_raised (-5)). lia. Defined.

Lemma in_int4_true (z : Z) :
  -2147483648 <= z <= 2147483647 -> in_int4 z = true.
Proof.
  intros H. unfold in_int4.
  change INT4_MIN with (-2147483648). change INT4_MAX with 2147483647.
  apply andb_true_iff. split; apply Z.leb_le; lia.
Qed.

Lemma in_int4_false (z : Z) :
  z < -2147483648 ∨ 2147483647 < z -> in_int4 z = false.
Proof.
  intros H. unfold in_int4.
  change INT4_MIN with (-2147483648). change INT4_MAX with 2147483647.
  apply andb_false_iff. rewrite !Z.leb_gt. lia.
Qed.

(** The two level functions agree wherever the SQL one returns. *)
Lemma calculate_level_calculateLevel (x : Z) :
  0 <= x <= INT4_MAX ->
  calculate_level (Some x) = Ok (Some (calculateLevel x)).
Proof.
  change INT4_MAX with 2147483647.
  intros [H0 H1]. unfold calculate_level, calculateLevel.
  destruct (Z.ltb_spec x 0); [lia|]. unfold int4.
  rewrite floor_sqrt_hundredth.
  assert (Hq : 0 <= x / 100) by (apply Z.div_pos; lia).
  pose proof (Z.sqrt_nonneg (x / 100)) as Hs.
  pose proof (Z.sqrt_le_lin (x / 100) Hq) as Hl.
  assert (x / 100 < 21474837) by (apply Z.div_lt_upper_bound; lia).
  rewrite in_int4_true by lia. reflexivity.
Qed.

End LevelFunction.

(** ** Level progress *)
Section Progress.
Import Gamification.









End Progress.

(** ** Badge criteria *)
Section BadgeCriteria.
Import Gamification Spec.

Lemma is_case_true (s label : string) : is_case s label = true <-> s = label.
Proof. unfold is_case. apply bool_decide_eq_true. Qed.



(** The criteria evaluator of the documented badge check is closed in the
    same way, over its own three types. *)
Lemma evaluateCriteria_closed (c : ApiModule.criteria) (user : ApiModule.user_with) :
  ApiModule.c_type c ∉ ["lessons_completed"; "streak"; "xp"]%string ->
  ApiModule.evaluateCriteria c user = false.
Proof.
  intros Hnot. unfold ApiModule.evaluateCriteria.
  repeat match goal with
  | |- context [is_case (ApiModule.c_type c) ?l] =>
      let E := fresh in
      destruct (is_case (ApiModule.c_type c) l) eqn:E;
      [apply is_case_true in E; exfalso; apply Hnot; rewrite E; set_solver|]
  end.
  reflexivity.
Qed.

(** So the badge check never reports a badge of another type as new. *)
Lemma badge_loop_newly_earned (now : Z) (user_ids badge_ids : list string)
    (userId : string) (user : ApiModule.user_with)
    (allBadges : list ApiModule.badge_row) :
  ∀ tbl badge,
  badge ∈ (ApiModule.badge_loop now user_ids badge_ids userId user allBadges tbl).2 ->
  ApiModule.c_type (ApiModule.b_criteria badge)
  ∈ ["lessons_completed"; "streak"; "xp"]%string.
Proof.
  induction allBadges as [|b rest IH]; intros tbl badge; cbn [ApiModule.badge_loop].
  - intros H. inversion H.
  - destruct (existsb _ _); [apply IH|].
    destruct (ApiModule.evaluateCriteria (ApiModule.b_criteria b) user) eqn:E;
      [|apply IH].
    specialize (IH (ApiModule.insert_ignoring_error now user_ids badge_ids
                      userId (ApiModule.b_id b) tbl) badge).
    destruct (ApiModule.badge_loop _ _ _ _ _ rest _) as [t nb]. cbn [snd] in *.
    intros [Heq|Hin]%elem_of_cons; [subst b|now apply IH].
    destruct (decide (ApiModule.c_type (ApiModule.b_criteria badge)
                      ∈ ["lessons_completed"; "streak"; "xp"]%string));
      [assumption|].
    rewrite evaluateCriteria_closed in E by assumption. discriminate E.
Qed.

End BadgeCriteria.

(** ** The streak resolver *)
Section StreakResolver.
Import Gamification Spec.

Lemma js_lt_true (h : jsnum) (c q : Q) :
  h = Some q -> (q < c)%Q -> js_lt h c = true.
Proof. intros -> H. now apply Qltb_lt. Qed.

Lemma js_lt_false (h : jsnum) (c q : Q) :
  h = Some q -> (c <= q)%Q -> js_lt h c = false.
Proof. intros -> H. now apply Qltb_ge. Qed.

(** C3, as stated, fails: thirty hours after the last activity the streak
    goes from 5 to 6, but the flag returned with it is false ([broken]), not
    the true of [changed]. *)
Lemma streak_flag_is_not_changed :
  ¬ same_answer
      (calculateStreak parse_nothing (hours 30) (OfDate (ValidDate 0)) (Some 5))
      (ResolveStreak (Some 30%Q) 5).
Proof. intros [_ H]. vm_compute in H. discriminate H. Qed.

(** C3, amended.  On the elapsed hours [h] since the last activity,
    [calculateStreak] returns the streak together with a [broken] flag:
    below 24 hours the streak unchanged and not broken, from 24 up to 48
    hours the streak plus one and not broken, from 48 hours on a streak of 1,
    broken.  The last activity is a date or a string, never absent; a date
    with no time value (one that did not parse) gives a streak of 1,
    broken. *)
Theorem calculateStreak_cases (Date_parse : string -> Date) (now : Z)
    (lastActivity : DateOrString) (currentStreak : Z) :
  (∀ h, hoursSince Date_parse now lastActivity = Some h ->
     ((h < 24)%Q ->
      calculateStreak Date_parse now lastActivity (Some currentStreak)
      = {| streak := currentStreak; broken := false |})
     ∧ ((24 <= h)%Q -> (h < 48)%Q ->
        calculateStreak Date_parse now lastActivity (Some currentStreak)
        = {| streak := currentStreak + 1; broken := false |})
     ∧ ((48 <= h)%Q ->
        calculateStreak Date_parse now lastActivity (Some currentStreak)
        = {| streak := 1; broken := true |}))
  ∧ (hoursSince Date_parse now lastActivity = None ->
     calculateStreak Date_parse now lastActivity (Some currentStreak)
     = {| streak := 1; broken := true |}).
Proof.
  unfold calculateStreak. cbn [default]. split.
  - intros h Hh. split; [|split].
    + intros H. now rewrite (js_lt_true _ _ _ Hh H).
    + intros H1 H2.
      now rewrite (js_lt_false _ _ _ Hh H1), (js_lt_true _ _ _ Hh H2).
    + intros H.
      assert (H24 : (24 <= h)%Q) by (apply Qle_trans with 48%Q; [discriminate|exact H]).
      now rewrite (js_lt_false _ _ _ Hh H24), (js_lt_false _ _ _ Hh H).
  - intros ->. reflexivity.
Qed.

Lemma calculateStreak_cases_witness :
  calculateStreak parse_nothing (hours 10) (OfDate (ValidDate 0)) (Some 5)
  = {| streak := 5; broken := false |}
  ∧ calculateStreak parse_nothing (hours 30) (OfDate (ValidDate 0)) (Some 5)
    = {| streak := 6; broken := false |}
  ∧ calculateStreak parse_nothing (hours 50) (OfDate (ValidDate 0)) (Some 5)
    = {| streak := 1; broken := true |}
  ∧ calculateStreak parse_nothing (hours 50) (OfString "") (Some 5)
    = {| streak := 1; broken := true |}.
Proof.
  split; [|split; [|split]].
  - refine (proj1 (proj1 (calculateStreak_cases parse_nothing (hours 10)
                            (OfDate (ValidDate 0)) 5) _ eq_refl) _).
    reflexivity.
  - refine (proj1 (proj2 (proj1 (calculateStreak_cases parse_nothing (hours 30)
                                   (OfDate (ValidDate 0)) 5) _ eq_refl)) _ _).
    + vm_compute. discriminate.
    + reflexivity.
  - refine (proj2 (proj2 (proj1 (calculateStreak_cases parse_nothing (hours 50)
                                   (OfDate (ValidDate 0)) 5) _ eq_refl)) _).
    vm_compute. discriminate.
  - apply (proj2 (calculateStreak_cases parse_nothing (hours 50) (OfString "") 5)).
    reflexivity.
Defined.

End StreakResolver.

(** ** The ledger write [award_xp] *)
Section Ledger.
Import Gamification Schema Spec.

Lemma users_checks_set_xp_level (now : Z) (r : user_row) (v l : Z) :
  users_checks r = true -> 0 <= v -> 1 <= l ->
  users_checks (update_updated_at_column now (set_xp_level now (Some v) (Some l) r))
  = true.
Proof.
  unfold users_checks. cbn. intros H Hv Hl.
  apply andb_true_iff in H as [H _]. apply andb_true_iff in H as [_ Hs].
  rewrite Hs. destruct (Z.leb_spec 0 v); [|lia].
  destruct (Z.leb_spec 1 l); [reflexivity|lia].
Qed.

(** An award that keeps the total within [0, INT4_MAX] goes through, and
    its single [UPDATE] stores the new points and their level together. *)
Lemma award_xp_ok (now : Z) (uid : uuid) (r : user_row) (x a : Z)
    (tbl : gmap uuid user_row) :
  tbl !! uid = Some r -> xp r = Some x -> users_checks r = true ->
  0 <= x + a <= INT4_MAX ->
  award_xp now uid (Some a) tbl
  = Ok ({| new_xp := Some (x + a);
           new_level := Some (calculateLevel (x + a));
           leveled_up := int4gt (Some (calculateLevel (x + a))) (current_level r) |},
        <[uid := set_xp_level now (Some (x + a))
                   (Some (calculateLevel (x + a))) r]> tbl).
Proof.
  intros Hr Hx Hc Hrange.
  unfold award_xp, award_select, award_update. rewrite Hr, Hx.
  cbn [int4pl]. unfold int4 at 1.
  rewrite in_int4_true by (revert Hrange; change INT4_MAX with 2147483647; lia).
  cbn [mbind exec_bind].
  rewrite (calculate_level_calculateLevel _ Hrange). cbn [mbind exec_bind].
  unfold update_users. rewrite Hr.
  rewrite users_checks_set_xp_level;
    [reflexivity|assumption|lia|apply calculateLevel_ge_1].
Qed.

(** What a successful call did: one row written once, points and level in
    the same write, the level being the level of the points. *)
Lemma award_xp_single_write (now : Z) (uid : uuid) (amount : option Z)
    (r : user_row) (tbl tbl' : gmap uuid user_row) (res : award_row) :
  tbl !! uid = Some r ->
  award_xp now uid amount tbl = Ok (res, tbl') ->
  int4pl (xp r) amount = Ok (new_xp res)
  ∧ calculate_level (new_xp res) = Ok (new_level res)
  ∧ leveled_up res = int4gt (new_level res) (current_level r)
  ∧ tbl' = <[uid := set_xp_level now (new_xp res) (new_level res) r]> tbl
  ∧ (∀ r', tbl' !! uid = Some r' -> level_consistent r').
Proof.
  intros Hr. unfold award_xp, award_select, award_update. rewrite Hr.
  destruct (int4pl (xp r) amount) as [nx|] eqn:E1; cbn [mbind exec_bind]; [|discriminate].
  destruct (calculate_level nx) as [nl|] eqn:E2; cbn [mbind exec_bind]; [|discriminate].
  unfold update_users. rewrite Hr.
  destruct (users_checks _); cbn [mbind exec_bind]; [|discriminate].
  intros [= <- <-]. cbn [new_xp new_level leveled_up].
  repeat split; try assumption; try reflexivity.
  intros r'. rewrite lookup_insert_eq. intros [= <-].
  unfold level_consistent. cbn. exact E2.
Qed.




End Ledger.

(** ** Completing a lesson *)
Section Completion.
Import Gamification Schema ApiModule Spec.


(** Whenever the documented logic reports a level-up, the table it leaves
    after its first [update] carries the new points with the old level. *)
Lemma complete_lesson_first_write (now : Z) (userId : uuid) (user : user_row)
    (xp_reward score : Z) (tbl : gmap uuid user_row) (c : completion)
    (writes : list (gmap uuid user_row)) :
  complete_lesson now userId user xp_reward score tbl = Returned (c, writes) ->
  level_up c = true ->
  ∃ tbl1 r1 rest, writes = tbl1 :: rest
    ∧ tbl1 !! userId = Some r1
    ∧ xp r1 = new_total_xp c
    ∧ default 0 (current_level r1) < calculateLevel (default 0 (xp r1)).
Proof.
  unfold complete_lesson.
  destruct (as_int4 _) as [v|]; cbn [mbind option_bind]; [|discriminate].
  destruct (update_users now userId (set_xp_activity v now) tbl) as [tbl1|];
    [|discriminate].
  destruct (tbl1 !! userId) as [r1|] eqn:E1; cbn [mbind option_bind]; [|discriminate].
  intros [= <- <-]. cbn [level_up new_total_xp]. intros Hup.
  pose proof (proj1 (Z.ltb_lt _ _) Hup) as Hlt. rewrite Hup.
  destruct (update_users now userId _ tbl1); eexists _, _, _; eauto.
Qed.

End Completion.

(** ** Interleaved awards *)
Section Interleaved.
Import Gamification Schema Interleaving Spec.

(** C8, as stated, fails: two calls awarding 10 points each to a fresh
    account, the second selecting before the first updates, leave 10 points,
    not 20. *)
Lemma interleaved_awards_lose_an_update :
  xp <$> (run [0; 1; 0; 1]%nat (issued "u" [(1, 10); (2, 10)]) (only_u 0 1)).2
         !! "u"%string
  = Some (Some 10)
  ∧ xp <$> (run [0; 1; 0; 1]%nat (issued "u" [(1, 10); (2, 10)]) (only_u 0 1)).2
           !! "u"%string
    ≠ Some (Some (0 + sum_awards [10; 10])).
Proof. split; [vm_compute; reflexivity|vm_compute; discriminate]. Qed.

Lemma run_app (s1 s2 : list nat) (calls : list call) (tbl : gmap uuid user_row) :
  run (s1 ++ s2) calls tbl
  = run s2 (run s1 calls tbl).1 (run s1 calls tbl).2.
Proof.
  revert calls tbl. induction s1 as [|i s1 IH]; intros calls tbl; [reflexivity|].
  cbn [app run]. destruct (calls !! i) as [c|]; [|apply IH].
  destruct (step c tbl) as [c' tbl']. apply IH.
Qed.

Lemma insert_middle {A} (l1 l2 : list A) (x y : A) :
  <[length l1 := y]> (l1 ++ x :: l2) = l1 ++ y :: l2.
Proof.
  rewrite <- (Nat.add_0_r (length l1)) at 1. now rewrite insert_app_r.
Qed.

(** A call whose two statements run back to back is [award_xp]. *)
Lemma run_call_alone (done rest : list call) (now : Z) (u : uuid)
    (a : option Z) (tbl : gmap uuid user_row) :
  let k := length done in
  run [k; k] (done ++ Called now u a :: rest) tbl
  = match award_xp now u a tbl with
    | Ok (r, tbl') => (done ++ Finished (Ok r) :: rest, tbl')
    | Raise e => (done ++ Finished (Raise e) :: rest, tbl)
    end.
Proof.
  intros k. subst k. cbn [run].
  rewrite list_lookup_middle by reflexivity. cbn [step].
  rewrite insert_middle.
  rewrite list_lookup_middle by reflexivity. cbn [step].
  unfold award_xp.
  destruct (award_update now u a (award_select u tbl) tbl) as [[r tbl']|e];
    now rewrite insert_middle.
Qed.

Lemma run_back_to_back (done : list call) (awards : list (Z * uuid * option Z))
    (tbl : gmap uuid user_row) :
  (run (back_to_back (length done) (length awards))
       (done ++ ((fun c => Called c.1.1 c.1.2 c.2) <$> awards)) tbl).2
  = run_sequentially awards tbl.
Proof.
  revert done tbl. induction awards as [|[[now u] a] awards IH]; intros done tbl;
    [reflexivity|].
  cbn [length back_to_back fmap list_fmap run_sequentially fst snd].
  change (length done :: length done :: ?s) with ([length done; length done] ++ s).
  rewrite run_app, run_call_alone.
  destruct (award_xp now u a tbl) as [[r tbl']|e]; cbn [fst snd].
  - specialize (IH (done ++ [Finished (Ok r)]) tbl').
    rewrite length_app, Nat.add_1_r, <- app_assoc in IH. exact IH.
  - specialize (IH (done ++ [Finished (Raise e)]) tbl).
    rewrite length_app, Nat.add_1_r, <- app_assoc in IH. exact IH.
Qed.

Lemma run_sequentially_total (uid : uuid) (awards : list (Z * Z)) :
  ∀ (tbl : gmap uuid user_row) (r : user_row) (x : Z),
  tbl !! uid = Some r -> xp r = Some x -> users_checks r = true -> 0 <= x ->
  Forall (fun c => 0 <= c.2) awards ->
  x + sum_awards (snd <$> awards) <= INT4_MAX ->
  ∃ r', run_sequentially (in_order uid awards) tbl !! uid = Some r'
        ∧ xp r' = Some (x + sum_awards (snd <$> awards))
        ∧ users_checks r' = true
        ∧ (awards ≠ [] ->
           current_level r'
           = Some (calculateLevel (x + sum_awards (snd <$> awards)))).
Proof.
  induction awards as [|[now a] awards IH]; intros tbl r x Hr Hx Hc H0 Hall Hmax.
  - exists r. cbn. rewrite Z.add_0_r. repeat split; try assumption. congruence.
  - apply Forall_cons in Hall as [Ha Hall]. cbn [snd] in Ha.
    cbn [fmap list_fmap sum_awards foldr snd] in Hmax |- *.
    fold (sum_awards (snd <$> awards)) in Hmax |- *.
    assert (Hrest : 0 <= sum_awards (snd <$> awards)).
    { clear -Hall. induction Hall as [|c l Hc _ IHl]; cbn; [lia|].
      fold (sum_awards (snd <$> l)). lia. }
    unfold in_order. cbn [fmap list_fmap run_sequentially fst snd].
    rewrite (award_xp_ok now uid r x a tbl Hr Hx Hc) by lia.
    set (r1 := set_xp_level now (Some (x + a)) (Some (calculateLevel (x + a))) r).
    destruct (IH (<[uid := r1]> tbl) r1 (x + a)) as (r' & Hr' & Hx' & Hc' & Hl');
      try assumption; try lia.
    + apply lookup_insert_eq.
    + reflexivity.
    + apply (users_checks_set_xp_level now r (x + a) _ Hc); [lia|].
      apply calculateLevel_ge_1.
    + exists r'. split; [exact Hr'|]. rewrite Z.add_assoc.
      split; [exact Hx'|]. split; [exact Hc'|]. intros _.
      destruct awards as [|c awards]; [|apply Hl'; discriminate].
      cbn in Hr'. rewrite lookup_insert_eq in Hr'. injection Hr' as <-.
      cbn. rewrite Z.add_0_r. reflexivity.
Qed.

(** C8, amended.  Awards to one account whose calls do not overlap (each
    call's [SELECT] and [UPDATE] run with no statement of another call between
    them) add up: the final total is the initial total plus the sum of the
    awarded points, and the stored level is the level of that total.
    [award_xp] takes no lock, so nothing is promised for calls whose
    statements interleave. *)
Theorem sequential_awards_accumulate (uid : uuid) (awards : list (Z * Z))
    (tbl : gmap uuid user_row) (r : user_row) (x : Z) :
  tbl !! uid = Some r -> xp r = Some x -> users_checks r = true ->
  Forall (fun c => 0 <= c.2) awards ->
  x + sum_awards (snd <$> awards) <= INT4_MAX ->
  ∃ r', (run (back_to_back 0 (length awards)) (issued uid awards) tbl).2 !! uid
        = Some r'
        ∧ xp r' = Some (x + sum_awards (snd <$> awards))
        ∧ (awards ≠ [] ->
           current_level r'
           = Some (calculateLevel (x + sum_awards (snd <$> awards)))).
Proof.
  intros Hr Hx Hc Hall Hmax.
  assert (H0 : 0 <= x).
  { unfold users_checks in Hc. rewrite Hx in Hc. cbn in Hc.
    destruct (Z.leb_spec 0 x); [assumption|discriminate]. }
  pose proof (run_back_to_back [] (in_order uid awards) tbl) as Hrun.
  unfold in_order in Hrun. rewrite length_fmap, <- list_fmap_compose in Hrun.
  cbn [length app] in Hrun. unfold issued.
  change (fun c : Z * Z => Called c.1 uid (Some c.2))
    with ((fun c : Z * uuid * option Z => Called c.1.1 c.1.2 c.2)
          ∘ (fun c : Z * Z => (c.1, uid, Some c.2))).
  rewrite Hrun.
  destruct (run_sequentially_total uid awards tbl r x Hr Hx Hc H0 Hall Hmax)
    as (r' & Hr' & Hx' & _ & Hl').
  exists r'. auto.
Qed.

Lemma sequential_awards_accumulate_witness :
  ∃ r', (run (back_to_back 0 2) (issued "u" [(1, 10); (2, 10)]) (only_u 0 1)).2
          !! "u"%string = Some r'
        ∧ xp r' = Some (0 + sum_awards [10; 10])
        ∧ ([(1, 10); (2, 10)] ≠ [] ->
           current_level r' = Some (calculateLevel (0 + sum_awards [10; 10]))).
Proof.
  apply (sequential_awards_accumulate "u" [(1, 10); (2, 10)] (only_u 0 1)
           (account 0 1 0) 0).
  - reflexivity.
  - reflexivity.
  - reflexivity.
  - repeat constructor; cbn; lia.
  - vm_compute. discriminate.
Defined.

End Interleaved.

(** ** Badge awards *)
Section BadgeAwards.
Import Schema ApiModule Spec.

Lemma same_key_pk (a b : user_badge_row) : same_key a b = true <-> pk a = pk b.
Proof.
  unfold same_key, pk. rewrite andb_true_iff, !bool_decide_eq_true.
  split; [intros [-> ->]; reflexivity|intros [= -> ->]; auto].
Qed.

Lemma existsb_same_key (row : user_badge_row) (tbl : list user_badge_row) :
  existsb (same_key row) tbl = true <-> pk row ∈ pk <$> tbl.
Proof.
  rewrite existsb_exists, list_elem_of_fmap. split.
  - intros (ub & Hin & Hk). exists ub. split; [now apply same_key_pk|].
    now apply list_elem_of_In.
  - intros (ub & Hk & Hin). exists ub. split; [now apply list_elem_of_In|].
    now apply same_key_pk.
Qed.

(** The primary key holds after every statement. *)
Lemma insert_user_badge_pk (now : Z) (user_ids badge_ids : list uuid)
    (u b : uuid) (tbl tbl' : list user_badge_row) :
  NoDup (pk <$> tbl) ->
  insert_user_badge now user_ids badge_ids u b tbl = Ok tbl' ->
  NoDup (pk <$> tbl').
Proof.
  intros Hnd. unfold insert_user_badge.
  destruct (existsb _ tbl) eqn:E; [discriminate|].
  destruct (_ && _); [|discriminate]. intros [= <-].
  rewrite fmap_app. apply NoDup_app. split; [exact Hnd|].
  split; [|apply NoDup_singleton].
  intros k Hk Hk'. cbn in Hk'. apply list_elem_of_singleton in Hk'. subst k.
  apply existsb_same_key in Hk. congruence.
Qed.

Lemma reachable_pk (tbl : list user_badge_row) :
  reachable tbl -> NoDup (pk <$> tbl).
Proof.
  induction 1 as [|now uids bids u b tbl _ IH|u tbl _ IH|b tbl _ IH].
  - constructor.
  - unfold insert_ignoring_error.
    destruct (insert_user_badge now uids bids u b tbl) as [tbl'|] eqn:E;
      [|exact IH].
    exact (insert_user_badge_pk _ _ _ _ _ _ _ IH E).
  - apply (sublist_NoDup _ _ IH), fmap_sublist, sublist_filter.
  - apply (sublist_NoDup _ _ IH), fmap_sublist, sublist_filter.
Qed.

Lemma awards_of_pk (u b : uuid) (tbl : list user_badge_row) :
  awards_of u b tbl = filter (fun ub => pk ub = (u, b)) tbl.
Proof.
  unfold awards_of. apply list_filter_iff. intros ub. unfold pk.
  split; [intros [-> ->]; reflexivity|intros [= -> ->]; auto].
Qed.

Lemma filter_pk_absent (k : uuid * uuid) (tbl : list user_badge_row) :
  k ∉ pk <$> tbl -> filter (fun ub => pk ub = k) tbl = [].
Proof.
  induction tbl as [|ub tbl IH]; [reflexivity|].
  rewrite fmap_cons, not_elem_of_cons. intros [Hne Hnot].
  rewrite filter_cons. destruct (decide (pk ub = k)); [congruence|auto].
Qed.

Lemma pk_at_most_one (k : uuid * uuid) (tbl : list user_badge_row) :
  NoDup (pk <$> tbl) -> (length (filter (fun ub => pk ub = k) tbl) <= 1)%nat.
Proof.
  induction tbl as [|ub tbl IH]; intros Hnd; [cbn; lia|].
  rewrite fmap_cons in Hnd. apply NoDup_cons in Hnd as [Hnot Hnd].
  rewrite filter_cons. destruct (decide (pk ub = k)) as [<-|]; [|auto].
  rewrite (filter_pk_absent _ _ Hnot). cbn. lia.
Qed.

Lemma badge_loop_reachable (now : Z) (user_ids badge_ids : list uuid)
    (userId : uuid) (user : user_with) (allBadges : list badge_row) :
  ∀ tbl, reachable tbl ->
  reachable (badge_loop now user_ids badge_ids userId user allBadges tbl).1.
Proof.
  induction allBadges as [|badge rest IH]; intros tbl Hr; [exact Hr|].
  cbn [badge_loop]. destruct (existsb _ (u_badges user)); [now apply IH|].
  destruct (evaluateCriteria _ user); [|now apply IH].
  specialize (IH (insert_ignoring_error now user_ids badge_ids userId
                    (b_id badge) tbl)).
  destruct (badge_loop _ _ _ _ _ rest _) as [t nb]. apply IH.
  now apply reachable_insert.
Qed.

(** C5.  For every (account, badge) pair at most one award ever exists,
    whoever inserts and in whatever order.  Inserting an award that is already
    there is refused by the primary key, the refusal is passed over and the
    table is left as it was: a badge evaluation that read the earned badges
    before another evaluation inserted the award (it lost the race) carries on
    as after a successful insertion and reports the badge.  Whatever the
    evaluation read beforehand, it keeps the table within these contents. *)
Theorem badge_awarded_at_most_once :
  (∀ tbl, reachable tbl ->
     ∀ u b, (length (awards_of u b tbl) <= 1)%nat)
  ∧ (∀ now user_ids badge_ids u b tbl,
       awards_of u b tbl ≠ [] ->
       insert_user_badge now user_ids badge_ids u b tbl = Raise unique_violation
       ∧ insert_ignoring_error now user_ids badge_ids u b tbl = tbl)
  ∧ (∀ now user_ids badge_ids userId stale badge tbl,
       existsb (fun ub => bool_decide (ub_badge_id ub = b_id badge))
               (u_badges stale) = false ->
       evaluateCriteria (b_criteria badge) stale = true ->
       awards_of userId (b_id badge) tbl ≠ [] ->
       badge_loop now user_ids badge_ids userId stale [badge] tbl
       = (tbl, [badge]))
  ∧ (∀ now user_ids badge_ids userId stale allBadges tbl,
       reachable tbl ->
       reachable (badge_loop now user_ids badge_ids userId stale allBadges tbl).1).
Proof.
  assert (Hdup : ∀ now user_ids badge_ids u b tbl,
            awards_of u b tbl ≠ [] ->
            insert_user_badge now user_ids badge_ids u b tbl
            = Raise unique_violation
            ∧ insert_ignoring_error now user_ids badge_ids u b tbl = tbl);
    [|split; [|split; [exact Hdup|split]]].
  - intros now uids bids u b tbl Hex.
    assert (E : existsb (same_key {| ub_user_id := u; ub_badge_id := b;
                                     earned_at := now |}) tbl = true).
    { apply existsb_same_key. rewrite awards_of_pk in Hex.
      destruct (filter _ tbl) as [|ub l] eqn:Ef; [contradiction|].
      assert (Hin : ub ∈ filter (fun ub => pk ub = (u, b)) tbl)
        by (rewrite Ef; apply list_elem_of_here).
      apply list_elem_of_filter in Hin as [Hk Hin].
      apply list_elem_of_fmap. exists ub. split; [now rewrite Hk|exact Hin]. }
    unfold insert_ignoring_error, insert_user_badge. rewrite E. split; reflexivity.
  - intros tbl Hr u b. rewrite awards_of_pk.
    apply pk_at_most_one, reachable_pk, Hr.
  - intros now uids bids userId stale badge tbl Hsnap Hcrit Hex.
    cbn [badge_loop]. rewrite Hsnap, Hcrit.
    now rewrite (proj2 (Hdup now uids bids userId (b_id badge) tbl Hex)).
  - intros. now apply badge_loop_reachable.
Qed.

Lemma badge_awarded_at_most_once_witness :
  (length (awards_of "u" "b"
             (insert_ignoring_error 2 ["u"] ["b"] "u" "b"
                (insert_ignoring_error 1 ["u"] ["b"] "u" "b"%string [])))
   <= 1)%nat
  ∧ insert_ignoring_error 2 ["u"] ["b"] "u" "b"
      (insert_ignoring_error 1 ["u"] ["b"] "u" "b"%string [])
    = insert_ignoring_error 1 ["u"] ["b"] "u" "b"%string [].
Proof.
  split.
  - apply (proj1 badge_awarded_at_most_once).
    apply reachable_insert, reachable_insert, reachable_empty.
  - apply (proj1 (proj2 badge_awarded_at_most_once) 2 ["u"] ["b"] "u" "b"
             (insert_ignoring_error 1 ["u"] ["b"] "u" "b"%string [])).
    vm_compute. discriminate.
Defined.

End BadgeAwards.

(** ** Ranking *)
Section Ranking.
Import Schema Leaderboard Spec.

(** C1 on the accounts A (500 points, created first), B (500 points,
    created second) and C (700 points).  The route computes the caller's rank
    as one more than the number of accounts with more points, so A and B both
    get rank 2, where B's rank should be 3; the view, which numbers the rows
    on points and then creation time, gives C, A, B the ranks 1, 2, 3.  The
    route's page is ordered on points alone, so it may list C, A, B or
    C, B, A. *)
Theorem route_rank_ignores_creation_order :
  (currentUserRank abc "A" = 2%nat
   ∧ currentUserRank abc "B" = 2%nat
   ∧ currentUserRank abc "C" = 1%nat)
  ∧ (view_rank abc [] "A" = Some 2%nat
     ∧ view_rank abc [] "B" = Some 3%nat
     ∧ view_rank abc [] "C" = Some 1%nat)
  ∧ (∃ resp, GET abc "B" 1 50 resp
       ∧ user_id <$> data resp = ["C"; "A"; "B"]%string
       ∧ rank <$> data resp = [1; 2; 3]%nat
       ∧ current_user_rank resp = 2%nat)
  ∧ (∃ resp, GET abc "B" 1 50 resp
       ∧ user_id <$> data resp = ["C"; "B"; "A"]%string
       ∧ rank <$> data resp = [1; 2; 3]%nat
       ∧ current_user_rank resp = 2%nat).
Proof.
  split; [repeat split; vm_compute; reflexivity|].
  split; [repeat split; vm_compute; reflexivity|].
  split.
  - eexists. split.
    + exists [("C"%string, account 700 3 3); ("A"%string, account 500 3 1);
              ("B"%string, account 500 3 2)].
      split; [|reflexivity]. split.
      * vm_compute. reflexivity.
      * repeat (constructor; try exact I).
    + repeat split; vm_compute; reflexivity.
  - eexists. split.
    + exists [("C"%string, account 700 3 3); ("B"%string, account 500 3 2);
              ("A"%string, account 500 3 1)].
      split; [|reflexivity]. split.
      * vm_compute. apply perm_skip, perm_swap.
      * repeat (constructor; try exact I).
    + repeat split; vm_compute; reflexivity.
Qed.

(** The route gives accounts with equal points the same rank, always. *)
Lemma currentUserRank_tie (tbl : gmap uuid user_row) (a b : uuid)
    (ra rb : user_row) :
  tbl !! a = Some ra -> tbl !! b = Some rb -> xp ra = xp rb ->
  currentUserRank tbl a = currentUserRank tbl b.
Proof.
  intros Ha Hb Hx. unfold currentUserRank. rewrite Ha, Hb. cbn.
  now rewrite Hx.
Qed.

End Ranking.

(** * Further properties of the code *)

(** ** Levels and thresholds *)
Section Thresholds.
Import Gamification Notions.

(** The bracket of the level of a total. *)
Lemma calculateLevel_bracket (xp : Z) :
  0 <= xp ->
  xpForLevel (calculateLevel xp) <= xp < xpForNextLevel (calculateLevel xp)
  ∧ xpForNextLevel (calculateLevel xp) = xpForLevel (calculateLevel xp + 1).
Proof.
  intros H. pose proof (calculateLevel_ge_1 xp) as Hl.
  rewrite !xpForLevel_ge_1 by lia. unfold xpForNextLevel. cbv zeta.
  replace (calculateLevel xp + 1 - 1) with (calculateLevel xp) by lia.
  split; [|reflexivity].
  rewrite calculateLevel_nonneg in * by assumption.
  pose proof (Z.sqrt_nonneg (xp / 100)) as Hs.
  replace (Z.sqrt (xp / 100) + 1 - 1) with (Z.sqrt (xp / 100)) by lia.
  apply (floor_sqrt_spec xp (Z.sqrt (xp / 100)) H Hs).
  apply floor_sqrt_hundredth.
Qed.













End Thresholds.

(** ** Rank labels *)
Section RankLabels.
Import Gamification Notions.






End RankLabels.

(** ** The SQL level functions *)
Section SqlLevels.
Import Gamification Schema Notions.

Lemma int4_ok (z : Z) :
  -2147483648 <= z <= 2147483647 -> int4 z = Ok (Some z).
Proof. intros H. unfold int4. now rewrite in_int4_true. Qed.

Lemma int4_raise (z : Z) :
  z < -2147483648 ∨ 2147483647 < z -> int4 z = Raise numeric_value_out_of_range.
Proof. intros H. unfold int4. now rewrite in_int4_false. Qed.

(** [xp_for_next_level] by the size of the level. *)
Lemma xp_for_next_level_cases (l : Z) :
  (Z.abs l <= 4634 ->
   xp_for_next_level (Some l) = Ok (Some (xpForNextLevel l)))
  ∧ (4634 < Z.abs l ->
     xp_for_next_level (Some l) = Raise numeric_value_out_of_range).
Proof.
  unfold xp_for_next_level, xpForNextLevel. cbn [int4mul]. cbv zeta. split.
  - intros H. rewrite int4_ok by nia. cbn [mbind exec_bind int4mul].
    rewrite int4_ok by nia. do 2 f_equal. lia.
  - intros H. destruct (Z.le_gt_cases (Z.abs l) 46340) as [Hs|Hs].
    + rewrite int4_ok by nia. cbn [mbind exec_bind int4mul].
      apply int4_raise. nia.
    + rewrite int4_raise by nia. reflexivity.
Qed.

(** X6.  [xp_for_next_level] returns the threshold [xpForNextLevel] gives,
    the level squared times 100, for levels up to 4634 in absolute value;
    beyond, the product does not fit an [INTEGER] and the function raises. *)
Theorem xp_for_next_level_range (l : Z) :
  (Z.abs l <= 4634 ->
   xp_for_next_level (Some l) = Ok (Some (xpForNextLevel l)))
  ∧ (4634 < Z.abs l ->
     xp_for_next_level (Some l) = Raise numeric_value_out_of_range).
Proof. exact (xp_for_next_level_cases l). Qed.

Lemma xp_for_next_level_range_witness :
  xp_for_next_level (Some 5) = Ok (Some (xpForNextLevel 5))
  ∧ xp_for_next_level (Some 4635) = Raise numeric_value_out_of_range.
Proof.
  split.
  - apply (proj1 (xp_for_next_level_range 5)). cbn. lia.
  - apply (proj2 (xp_for_next_level_range 4635)). cbn. lia.
Defined.

(** X7.  For every stored total, [calculate_level] returns; asking
    [xp_for_next_level] for the level it returned gives a threshold above the
    total as long as the total is below 2147395600, and raises from there on:
    the top level, 4635, has no next threshold that fits. *)
Theorem next_threshold_of_stored_total (x : Z) :
  0 <= x <= INT4_MAX ->
  calculate_level (Some x) = Ok (Some (calculateLevel x))
  ∧ (x < 2147395600 ->
     ∃ t, xp_for_next_level (Some (calculateLevel x)) = Ok (Some t) ∧ x < t)
  ∧ (2147395600 <= x ->
     calculateLevel x = 4635
     ∧ xp_for_next_level (Some (calculateLevel x))
       = Raise numeric_value_out_of_range).
Proof.
  intros Hx. split; [now apply calculate_level_calculateLevel|].
  revert Hx. change INT4_MAX with 2147483647. intros [H0 Hmax].
  pose proof (calculateLevel_ge_1 x) as Hl.
  destruct (calculateLevel_bracket x H0) as [[Hlo Hhi] _].
  rewrite xpForLevel_ge_1 in Hlo by assumption.
  unfold xpForNextLevel in Hhi. cbv zeta in Hhi.
  replace (calculateLevel x + 1 - 1) with (calculateLevel x) in Hhi by lia.
  split.
  - intros Hlt. exists (xpForNextLevel (calculateLevel x)). split.
    + apply (proj1 (xp_for_next_level_cases _)). nia.
    + unfold xpForNextLevel. cbv zeta.
      replace (calculateLevel x + 1 - 1) with (calculateLevel x) by lia. lia.
  - intros Hge. assert (E : calculateLevel x = 4635) by nia.
    split; [exact E|]. apply (proj2 (xp_for_next_level_cases _)). lia.
Qed.

Lemma next_threshold_of_stored_total_witness :
  calculate_level (Some 2147483647) = Ok (Some (calculateLevel 2147483647))
  ∧ calculateLevel 2147483647 = 4635
  ∧ xp_for_next_level (Some (calculateLevel 2147483647))
    = Raise numeric_value_out_of_range.
Proof.
  assert (Hr : 0 <= 2147483647 <= INT4_MAX)
    by (vm_compute; intuition discriminate).
  destruct (next_threshold_of_stored_total 2147483647 Hr) as (H1 & _ & H3).
  split; [exact H1|]. apply H3. lia.
Defined.

End SqlLevels.

(** ** More on [award_xp] *)
Section Awards.
Import Gamification Schema Interleaving Notions Spec.

(** X8.  An award to an id that has no row is not an error: the call
    returns a row of [NULL]s, whatever the amount, and the table is as it
    was. *)
Theorem award_xp_no_row (now : Z) (uid : uuid) (amount : option Z)
    (tbl : gmap uuid user_row) :
  tbl !! uid = None ->
  award_xp now uid amount tbl
  = Ok ({| new_xp := None; new_level := None; leveled_up := None |}, tbl).
Proof.
  intros H. unfold award_xp, award_select, award_update. rewrite H.
  cbn [int4pl mbind exec_bind calculate_level]. unfold update_users.
  rewrite H. reflexivity.
Qed.

Lemma award_xp_no_row_witness :
  award_xp 1 "v" (Some 10) (only_u 0 1)
  = Ok ({| new_xp := None; new_level := None; leveled_up := None |}, only_u 0 1).
Proof. apply (award_xp_no_row 1 "v" (Some 10) (only_u 0 1)). reflexivity. Defined.

(** X9.  [NULL] is absorbing: when the amount or the stored total is
    [NULL], the call succeeds and stores [NULL] as the account's points and
    as its level. *)
Theorem award_xp_null (now : Z) (uid : uuid) (amount : option Z) (r : user_row)
    (tbl : gmap uuid user_row) :
  tbl !! uid = Some r -> users_checks r = true ->
  xp r = None ∨ amount = None ->
  ∃ tbl' r',
    award_xp now uid amount tbl
    = Ok ({| new_xp := None; new_level := None; leveled_up := None |}, tbl')
    ∧ tbl' !! uid = Some r' ∧ xp r' = None ∧ current_level r' = None.
Proof.
  intros Hr Hc Hnull. unfold award_xp, award_select, award_update. rewrite Hr.
  assert (E : int4pl (xp r) amount = Ok None).
  { destruct Hnull as [-> | ->]; [reflexivity|]. now destruct (xp r). }
  rewrite E. cbn [mbind exec_bind calculate_level]. unfold update_users.
  rewrite Hr.
  assert (Hc' : users_checks (update_updated_at_column now
                                (set_xp_level now None None r)) = true).
  { unfold users_checks in *. cbn.
    apply andb_true_iff in Hc as [Hc _]. apply andb_true_iff in Hc as [_ Hs].
    now rewrite Hs. }
  rewrite Hc'. cbn [mbind exec_bind int4gt].
  eexists _, _. split; [reflexivity|]. rewrite lookup_insert_eq.
  split; [reflexivity|]. split; reflexivity.
Qed.

Lemma award_xp_null_witness :
  ∃ tbl' r',
    award_xp 1 "u" None (only_u 500 3)
    = Ok ({| new_xp := None; new_level := None; leveled_up := None |}, tbl')
    ∧ tbl' !! "u"%string = Some r' ∧ xp r' = None ∧ current_level r' = None.
Proof.
  apply (award_xp_null 1 "u" None (account 500 3 0) (only_u 500 3)).
  - reflexivity.
  - reflexivity.
  - right. reflexivity.
Defined.

Lemma update_users_frame (now : Z) (uid : uuid) (set : user_row -> user_row)
    (tbl tbl' : gmap uuid user_row) :
  update_users now uid set tbl = Ok tbl' ->
  (∀ id, id ≠ uid -> tbl' !! id = tbl !! id)
  ∧ (∀ r, tbl !! uid = Some r ->
       tbl' !! uid = Some (update_updated_at_column now (set r))
       ∧ users_checks (update_updated_at_column now (set r)) = true)
  ∧ (tbl !! uid = None -> tbl' = tbl).
Proof.
  unfold update_users. destruct (tbl !! uid) as [r|] eqn:E.
  - destruct (users_checks _) eqn:Hc; [|discriminate]. intros [= <-].
    split; [intros id Hne; now rewrite lookup_insert_ne|].
    split; [|discriminate]. intros r0 [= <-].
    now rewrite lookup_insert_eq.
  - intros [= <-]. split; [reflexivity|]. split; [discriminate|reflexivity].
Qed.

(** X10.  A successful award touches one row and, in it, only the points,
    the level and the update stamp: every other account's row is as before,
    no row appears or disappears, the account's name, streak, last activity
    and creation instant are kept, and the table's checks still hold. *)
Theorem award_xp_frame (now : Z) (uid : uuid) (amount : option Z)
    (tbl tbl' : gmap uuid user_row) (res : award_row) :
  award_xp now uid amount tbl = Ok (res, tbl') ->
  (∀ id, id ≠ uid -> tbl' !! id = tbl !! id)
  ∧ dom tbl' = dom tbl
  ∧ (∀ r, tbl !! uid = Some r ->
       ∃ r', tbl' !! uid = Some r'
             ∧ display_name r' = display_name r ∧ streak r' = streak r
             ∧ last_activity r' = last_activity r
             ∧ created_at r' = created_at r
             ∧ updated_at r' = Some now)
  ∧ (users_valid tbl -> users_valid tbl').
Proof.
  unfold award_xp, award_update.
  destruct (award_select uid tbl) as [v_old_xp v_old_level].
  destruct (int4pl v_old_xp amount) as [nx|]; cbn [mbind exec_bind]; [|discriminate].
  destruct (calculate_level nx) as [nl|]; cbn [mbind exec_bind]; [|discriminate].
  destruct (update_users now uid _ tbl) as [t|] eqn:E; cbn [mbind exec_bind];
    [|discriminate].
  intros [= _ <-]. destruct (update_users_frame _ _ _ _ _ E) as (Hne & Heq & Hnone).
  split; [exact Hne|]. split; [|split].
  - apply set_eq. intros id. rewrite !elem_of_dom.
    destruct (decide (id = uid)) as [->|Hid]; [|now rewrite Hne].
    destruct (tbl !! uid) as [r|] eqn:Er.
    + destruct (Heq r eq_refl) as [-> _]. split; eauto.
    + rewrite (Hnone eq_refl), Er. reflexivity.
  - intros r Hr. destruct (Heq r Hr) as [-> _]. eexists. split; [reflexivity|].
    repeat split; reflexivity.
  - intros Hv id r Hid. destruct (decide (id = uid)) as [->|Hne'].
    + destruct (tbl !! uid) as [r0|] eqn:Er.
      * destruct (Heq r0 eq_refl) as [Hl Hc]. rewrite Hl in Hid.
        injection Hid as <-. exact Hc.
      * rewrite (Hnone eq_refl), Er in Hid. discriminate Hid.
    + rewrite Hne in Hid by assumption. exact (Hv id r Hid).
Qed.

Lemma award_xp_frame_witness :
  ∃ r', (run_sequentially [(7, "A"%string, Some 10)] abc) !! "A"%string = Some r'
        ∧ streak r' = Some 0 ∧ created_at r' = Some 1 ∧ updated_at r' = Some 7.
Proof.
  destruct (award_xp 7 "A" (Some 10) abc) as [[res tbl']|e] eqn:E;
    [|vm_compute in E; discriminate E].
  destruct (proj1 (proj2 (proj2 (award_xp_frame 7 "A" (Some 10) abc tbl' res E)))
              (account 500 3 1) eq_refl) as (r' & Hr' & _ & Hs & _ & Hc & Hu).
  exists r'. cbn [run_sequentially]. rewrite E. auto.
Defined.

(** X11.  An award that would take the total past the largest [INTEGER] is
    refused with an out-of-range error. *)
Theorem award_xp_overflow (now : Z) (uid : uuid) (r : user_row) (x a : Z)
    (tbl : gmap uuid user_row) :
  tbl !! uid = Some r -> xp r = Some x -> INT4_MAX < x + a ->
  award_xp now uid (Some a) tbl = Raise numeric_value_out_of_range.
Proof.
  change INT4_MAX with 2147483647. intros Hr Hx Hover.
  unfold award_xp, award_select, award_update. rewrite Hr, Hx.
  cbn [int4pl]. rewrite int4_raise by lia. reflexivity.
Qed.

Lemma award_xp_overflow_witness :
  award_xp 1 "u" (Some 2147483647) (only_u 500 3)
  = Raise numeric_value_out_of_range.
Proof.
  apply (award_xp_overflow 1 "u" (account 500 3 0) 500 2147483647 (only_u 500 3));
    try reflexivity.
Defined.

Lemma xpForLevel_mono (l1 l2 : Z) : l1 <= l2 -> xpForLevel l1 <= xpForLevel l2.
Proof.
  intros H. destruct (Z.lt_ge_cases l1 1) as [H1|H1].
  - rewrite (xpForLevel_le_1 l1) by lia.
    destruct (Z.lt_ge_cases l2 1); [rewrite xpForLevel_le_1 by lia; lia|].
    rewrite xpForLevel_ge_1 by lia. nia.
  - destruct (Z.eq_dec l1 l2) as [->|]; [lia|].
    pose proof (xpForLevel_strict l1 l2). lia.
Qed.

(** X12.  On an account whose stored level is the level of its points, an
    award of a non-negative amount that fits never lowers the level, and it
    reports a level-up exactly when the new total reaches the threshold of
    the level after the stored one. *)
Theorem award_xp_leveled_up (now : Z) (uid : uuid) (r : user_row) (x a : Z)
    (tbl : gmap uuid user_row) :
  tbl !! uid = Some r -> users_checks r = true ->
  xp r = Some x -> current_level r = Some (calculateLevel x) ->
  0 <= a -> x + a <= INT4_MAX ->
  ∃ res tbl' up,
    award_xp now uid (Some a) tbl = Ok (res, tbl')
    ∧ new_level res = Some (calculateLevel (x + a))
    ∧ calculateLevel x <= calculateLevel (x + a)
    ∧ leveled_up res = Some up
    ∧ (up = true <-> xpForNextLevel (calculateLevel x) <= x + a).
Proof.
  intros Hr Hc Hx Hl Ha Hmax.
  assert (H0 : 0 <= x).
  { unfold users_checks in Hc. rewrite Hx in Hc. cbn in Hc.
    destruct (Z.leb_spec 0 x); [assumption|discriminate]. }
  eexists _, _, _. split; [apply (award_xp_ok now uid r x a tbl Hr Hx Hc); lia|].
  cbn [new_level leveled_up]. rewrite Hl. cbn [int4gt].
  split; [reflexivity|]. split; [apply calculateLevel_mono; lia|].
  split; [reflexivity|]. rewrite Z.ltb_lt.
  destruct (calculateLevel_bracket x H0) as [_ ->].
  pose proof (calculateLevel_ge_1 x) as H1.
  split.
  - intros Hlt. destruct (calculateLevel_bracket (x + a) ltac:(lia)) as [[Hlo _] _].
    pose proof (xpForLevel_mono (calculateLevel x + 1) (calculateLevel (x + a))).
    lia.
  - intros Hge. pose proof (calculateLevel_mono _ _ Hge) as Hm.
    rewrite calculateLevel_xpForLevel in Hm by lia. lia.
Qed.

Lemma award_xp_leveled_up_witness :
  ∃ res tbl' up,
    award_xp 7 "u" (Some 10) (only_u 90 1) = Ok (res, tbl')
    ∧ new_level res = Some (calculateLevel (90 + 10))
    ∧ calculateLevel 90 <= calculateLevel (90 + 10)
    ∧ leveled_up res = Some up
    ∧ (up = true <-> xpForNextLevel (calculateLevel 90) <= 90 + 10).
Proof.
  apply (award_xp_leveled_up 7 "u" (account 90 1 0) 90 10 (only_u 90 1));
    try reflexivity; try lia.
  vm_compute. discriminate.
Defined.

(** X13.  Two awards in a row leave the table exactly as one award of their
    sum made at the time of the second. *)
Theorem award_xp_twice (n1 n2 : Z) (uid : uuid) (r : user_row) (x a b : Z)
    (tbl : gmap uuid user_row) :
  tbl !! uid = Some r -> xp r = Some x -> users_checks r = true ->
  0 <= x + a <= INT4_MAX -> 0 <= x + a + b <= INT4_MAX ->
  run_sequentially [(n1, uid, Some a); (n2, uid, Some b)] tbl
  = run_sequentially [(n2, uid, Some (a + b))] tbl.
Proof.
  intros Hr Hx Hc Ha Hb. cbn [run_sequentially].
  rewrite (award_xp_ok n1 uid r x a tbl Hr Hx Hc Ha).
  set (r1 := set_xp_level n1 (Some (x + a)) (Some (calculateLevel (x + a))) r).
  assert (Hc1 : users_checks r1 = true).
  { apply (users_checks_set_xp_level n1 r (x + a) _ Hc); [lia|].
    apply calculateLevel_ge_1. }
  rewrite (award_xp_ok n2 uid r1 (x + a) b (<[uid := r1]> tbl)
             (lookup_insert_eq _ _ _) eq_refl Hc1 Hb).
  rewrite (award_xp_ok n2 uid r x (a + b) tbl Hr Hx Hc) by lia.
  rewrite insert_insert_eq. rewrite Z.add_assoc. reflexivity.
Qed.

Lemma award_xp_twice_witness :
  run_sequentially [(1, "u"%string, Some 10); (2, "u"%string, Some 20)] (only_u 0 1)
  = run_sequentially [(2, "u"%string, Some (10 + 20))] (only_u 0 1).
Proof.
  apply (award_xp_twice 1 2 "u" (account 0 1 0) 0 10 20 (only_u 0 1));
    try reflexivity; vm_compute; intuition discriminate.
Defined.

End Awards.

(** ** More on interleaved calls *)
Section Schedules.
Import Gamification Schema Interleaving Notions Spec.

(** A step of a call reads and writes the row of its account only. *)
Lemma step_local (c : call) (w : uuid) :
  call_account c = Some w ->
  ∃ f : option user_row -> call * option user_row,
    ∀ t, step c t
         = ((f (t !! w)).1,
            from_option (fun r' => <[w := r']> t) t (f (t !! w)).2).
Proof.
  destruct c as [now u a|now u a [ox ol]|res]; intros [= <-].
  - exists (fun o =>
              (Selected now u a
                 match o with
                 | Some r => (xp r, current_level r)
                 | None => (None, None)
                 end, None)).
    intros t. cbn [step fst snd from_option]. unfold award_select.
    destruct (t !! u); reflexivity.
  - exists (fun o =>
              match int4pl ox a with
              | Raise e => (Finished (Raise e), None)
              | Ok nx =>
                  match calculate_level nx with
                  | Raise e => (Finished (Raise e), None)
                  | Ok nl =>
                      let res := {| new_xp := nx; new_level := nl;
                                    leveled_up := int4gt nl ol |} in
                      match o with
                      | None => (Finished (Ok res), None)
                      | Some r =>
                          let r' := update_updated_at_column now
                                      (set_xp_level now nx nl r) in
                          if users_checks r' then (Finished (Ok res), Some r')
                          else (Finished (Raise check_violation), None)
                      end
                  end
              end).
    intros t. cbn [step]. unfold award_update.
    destruct (int4pl ox a) as [nx|e]; cbn [mbind exec_bind]; [|reflexivity].
    destruct (calculate_level nx) as [nl|e]; cbn [mbind exec_bind]; [|reflexivity].
    unfold update_users. destruct (t !! u) as [r|]; [|reflexivity].
    cbv zeta. destruct (users_checks _); reflexivity.
Qed.

(** X14.  Calls on different accounts do not interfere: running a step of
    one and then a step of the other leaves the same calls and the same table
    as running the two steps the other way round. *)
Theorem steps_on_different_accounts_commute (calls : list call)
    (tbl : gmap uuid user_row) (i j : nat) (ci cj : call) (u v : uuid) :
  calls !! i = Some ci -> calls !! j = Some cj ->
  call_account ci = Some u -> call_account cj = Some v -> u ≠ v ->
  run [i; j] calls tbl = run [j; i] calls tbl.
Proof.
  intros Hi Hj Hu Hv Hne.
  assert (Hij : i ≠ j) by (intros ->; congruence).
  destruct (step_local ci u Hu) as [f1 H1].
  destruct (step_local cj v Hv) as [f2 H2].
  assert (Hleft : ∀ (t : gmap uuid user_row) (o : option user_row),
            from_option (fun r' => <[u := r']> t) t o !! v = t !! v).
  { intros t [r|]; cbn; [now rewrite lookup_insert_ne|reflexivity]. }
  assert (Hright : ∀ (t : gmap uuid user_row) (o : option user_row),
            from_option (fun r' => <[v := r']> t) t o !! u = t !! u).
  { intros t [r|]; cbn; [now rewrite lookup_insert_ne|reflexivity]. }
  cbn [run]. rewrite Hi, Hj, H1, H2.
  rewrite list_lookup_insert_ne by assumption.
  rewrite list_lookup_insert_ne by auto.
  rewrite Hi, Hj, H1, H2, Hleft, Hright.
  f_equal.
  - apply list_insert_insert_ne. auto.
  - destruct (f1 (tbl !! u)).2 as [r1|], (f2 (tbl !! v)).2 as [r2|];
      cbn [from_option]; try reflexivity.
    apply insert_insert_ne. auto.
Qed.

Lemma steps_on_different_accounts_commute_witness :
  run [0; 1]%nat [Called 1 "A" (Some 10); Called 2 "B" (Some 10)] abc
  = run [1; 0]%nat [Called 1 "A" (Some 10); Called 2 "B" (Some 10)] abc.
Proof.
  apply (steps_on_different_accounts_commute _ abc 0 1
           (Called 1 "A" (Some 10)) (Called 2 "B" (Some 10)) "A" "B");
    try reflexivity.
  discriminate.
Defined.

(** X15.  When two calls on one account both select before either
    updates, the first update is lost: the total ends as the old total plus
    the amount of the call that updated last. *)
Theorem last_update_wins (n1 n2 : Z) (uid : uuid) (r : user_row) (x a1 a2 : Z)
    (tbl : gmap uuid user_row) :
  tbl !! uid = Some r -> xp r = Some x -> users_checks r = true ->
  0 <= x + a1 <= INT4_MAX -> 0 <= x + a2 <= INT4_MAX ->
  xp <$> (run [0; 1; 0; 1]%nat (issued uid [(n1, a1); (n2, a2)]) tbl).2 !! uid
  = Some (Some (x + a2))
  ∧ xp <$> (run [0; 1; 1; 0]%nat (issued uid [(n1, a1); (n2, a2)]) tbl).2 !! uid
    = Some (Some (x + a1)).
Proof.
  intros Hr Hx Hc H1 H2.
  assert (Hsel : award_select uid tbl = (Some x, current_level r)).
  { unfold award_select. now rewrite Hr, Hx. }
  assert (Hupd : ∀ now a t r0,
            t !! uid = Some r0 -> users_checks r0 = true ->
            0 <= x + a <= INT4_MAX ->
            ∃ res r', award_update now uid (Some a) (Some x, current_level r) t
                      = Ok (res, <[uid := r']> t)
                      ∧ xp r' = Some (x + a) ∧ users_checks r' = true).
  { intros now a t r0 Ht Hc0 Ha. unfold award_update. cbn [int4pl].
    rewrite int4_ok by (revert Ha; change INT4_MAX with 2147483647; lia).
    cbn [mbind exec_bind]. rewrite (calculate_level_calculateLevel _ Ha).
    cbn [mbind exec_bind]. unfold update_users. rewrite Ht.
    pose proof (users_checks_set_xp_level now r0 (x + a) (calculateLevel (x + a))
                  Hc0 ltac:(lia) (calculateLevel_ge_1 _)) as Hc'.
    rewrite Hc'. cbn [mbind exec_bind]. eexists _, _.
    split; [reflexivity|]. split; [reflexivity|exact Hc']. }
  unfold issued. cbn [fmap list_fmap fst snd run lookup list_lookup step
                      insert list_insert].
  rewrite Hsel.
  destruct (Hupd n1 a1 tbl r Hr Hc H1) as (res1 & r1 & E1 & Hx1 & Hc1).
  destruct (Hupd n2 a2 tbl r Hr Hc H2) as (res2 & r2 & E2 & Hx2 & Hc2).
  split.
  - rewrite E1. cbn [lookup list_lookup step insert list_insert].
    destruct (Hupd n2 a2 (<[uid := r1]> tbl) r1 (lookup_insert_eq _ _ _) Hc1 H2)
      as (res & r' & E & Hx' & _).
    rewrite E. cbn [snd]. rewrite lookup_insert_eq. cbn. now rewrite Hx'.
  - rewrite E2. cbn [lookup list_lookup step insert list_insert].
    destruct (Hupd n1 a1 (<[uid := r2]> tbl) r2 (lookup_insert_eq _ _ _) Hc2 H1)
      as (res & r' & E & Hx' & _).
    rewrite E. cbn [snd]. rewrite lookup_insert_eq. cbn. now rewrite Hx'.
Qed.

Lemma last_update_wins_witness :
  xp <$> (run [0; 1; 0; 1]%nat (issued "u" [(1, 10); (2, 25)]) (only_u 0 1)).2
         !! "u"%string
  = Some (Some (0 + 25))
  ∧ xp <$> (run [0; 1; 1; 0]%nat (issued "u" [(1, 10); (2, 25)]) (only_u 0 1)).2
           !! "u"%string
    = Some (Some (0 + 10)).
Proof.
  apply (last_update_wins 1 2 "u" (account 0 1 0) 0 10 25 (only_u 0 1));
    try reflexivity; vm_compute; intuition discriminate.
Defined.

End Schedules.

(** ** Inserting awards and evaluating badges *)
Section BadgeEvaluation.
Import Schema ApiModule Notions Spec.

Lemma filter_nil_intro {A} (P : A -> Prop) `{!∀ x, Decision (P x)}
    (l : list A) :
  (∀ x, x ∈ l -> ¬ P x) -> filter P l = [].
Proof.
  induction l as [|a l IH]; intros Hall; [reflexivity|].
  rewrite filter_cons. destruct (decide (P a)) as [Hp|_].
  - exfalso. apply (Hall a); [left|assumption].
  - apply IH. intros x Hx. apply Hall. now right.
Qed.

Lemma awards_of_nil_iff (u b : uuid) (tbl : list user_badge_row) :
  awards_of u b tbl = [] <-> (u, b) ∉ pk <$> tbl.
Proof.
  rewrite awards_of_pk. split.
  - intros Hnil Hin. apply list_elem_of_fmap in Hin as (ub & Hk & Hin).
    apply (filter_nil_not_elem_of _ _ ub Hnil); [now rewrite <- Hk|assumption].
  - apply filter_pk_absent.
Qed.

(** The three outcomes of an insertion into [user_badges]. *)
Lemma insert_user_badge_cases (now : Z) (user_ids badge_ids : list uuid)
    (u b : uuid) (tbl : list user_badge_row) :
  (awards_of u b tbl ≠ [] ->
   insert_user_badge now user_ids badge_ids u b tbl = Raise unique_violation)
  ∧ (awards_of u b tbl = [] -> ¬ (u ∈ user_ids ∧ b ∈ badge_ids) ->
     insert_user_badge now user_ids badge_ids u b tbl
     = Raise foreign_key_violation)
  ∧ (awards_of u b tbl = [] -> u ∈ user_ids -> b ∈ badge_ids ->
     ∃ tbl', insert_user_badge now user_ids badge_ids u b tbl = Ok tbl'
             ∧ awards_of u b tbl'
               = [{| ub_user_id := u; ub_badge_id := b; earned_at := now |}]
             ∧ ∀ u' b', (u', b') ≠ (u, b) ->
                 awards_of u' b' tbl' = awards_of u' b' tbl).
Proof.
  set (row := {| ub_user_id := u; ub_badge_id := b; earned_at := now |}).
  assert (Hex : existsb (same_key row) tbl = true <-> awards_of u b tbl ≠ []).
  { rewrite existsb_same_key, awards_of_nil_iff. cbn.
    split; [auto|]. intros H. destruct (decide ((u, b) ∈ pk <$> tbl)); tauto. }
  unfold insert_user_badge. fold row. split; [|split].
  - intros H. apply Hex in H. now rewrite H.
  - intros Hnil Hfk.
    destruct (existsb (same_key row) tbl) eqn:E;
      [destruct (proj1 Hex eq_refl Hnil)|].
    destruct (bool_decide (u ∈ user_ids) && bool_decide (b ∈ badge_ids)) eqn:Ef;
      [|reflexivity].
    apply andb_true_iff in Ef as [Hu Hb].
    apply bool_decide_eq_true in Hu, Hb. tauto.
  - intros Hnil Hu Hb.
    destruct (existsb (same_key row) tbl) eqn:E;
      [destruct (proj1 Hex eq_refl Hnil)|].
    rewrite !bool_decide_eq_true_2 by assumption. cbn [andb].
    eexists. split; [reflexivity|]. split.
    + unfold awards_of in *. rewrite filter_app, Hnil. cbn [app].
      rewrite filter_cons, filter_nil.
      destruct (decide (ub_user_id row = u ∧ ub_badge_id row = b)) as [|n];
        [reflexivity|]. exfalso. apply n. split; reflexivity.
    + intros u' b' Hne. unfold awards_of. rewrite filter_app.
      rewrite filter_cons, filter_nil.
      destruct (decide (ub_user_id row = u' ∧ ub_badge_id row = b'))
        as [[Hu' Hb']|]; [|apply app_nil_r].
      exfalso. apply Hne. cbn in Hu', Hb'. congruence.
Qed.

(** X16.  An award is inserted exactly when the pair has no award yet and
    both the account and the badge exist; the table then holds that one award
    for the pair, stamped with the time of the insertion, and the awards of
    every other pair are as before.  A pair that has an award gets a
    unique-violation even when the account or the badge is gone; a free pair
    with a missing account or badge gets a foreign-key violation. *)
Theorem insert_user_badge_outcome (now : Z) (user_ids badge_ids : list uuid)
    (u b : uuid) (tbl : list user_badge_row) :
  (awards_of u b tbl ≠ [] ->
   insert_user_badge now user_ids badge_ids u b tbl = Raise unique_violation)
  ∧ (awards_of u b tbl = [] -> ¬ (u ∈ user_ids ∧ b ∈ badge_ids) ->
     insert_user_badge now user_ids badge_ids u b tbl
     = Raise foreign_key_violation)
  ∧ (awards_of u b tbl = [] -> u ∈ user_ids -> b ∈ badge_ids ->
     ∃ tbl', insert_user_badge now user_ids badge_ids u b tbl = Ok tbl'
             ∧ awards_of u b tbl'
               = [{| ub_user_id := u; ub_badge_id := b; earned_at := now |}]
             ∧ ∀ u' b', (u', b') ≠ (u, b) ->
                 awards_of u' b' tbl' = awards_of u' b' tbl).
Proof. exact (insert_user_badge_cases now user_ids badge_ids u b tbl). Qed.

Lemma insert_user_badge_outcome_witness :
  insert_user_badge 2 ["u"] ["b"] "u" "b"
    [{| ub_user_id := "u"; ub_badge_id := "b"; earned_at := 1 |}]
  = Raise unique_violation
  ∧ insert_user_badge 2 ["u"] ["b"] "u" "c" [] = Raise foreign_key_violation
  ∧ ∃ tbl', insert_user_badge 2 ["u"] ["b"] "u" "b" [] = Ok tbl'
            ∧ awards_of "u" "b" tbl'
              = [{| ub_user_id := "u"; ub_badge_id := "b"; earned_at := 2 |}]
            ∧ ∀ u' b', (u', b') ≠ ("u", "b")%string ->
                awards_of u' b' tbl' = awards_of u' b' [].
Proof.
  split; [|split].
  - apply (proj1 (insert_user_badge_outcome 2 ["u"] ["b"] "u" "b" _)).
    vm_compute. discriminate.
  - apply (proj1 (proj2 (insert_user_badge_outcome 2 ["u"] ["b"] "u" "c" []))).
    + reflexivity.
    + intros [_ H]. apply list_elem_of_singleton in H. discriminate H.
  - apply (proj2 (proj2 (insert_user_badge_outcome 2 ["u"] ["b"] "u" "b" []))).
    + reflexivity.
    + apply list_elem_of_here.
    + apply list_elem_of_here.
Defined.













End BadgeEvaluation.

(** ** More on the leaderboard route *)
Section LeaderboardRoute.
Import Schema Leaderboard Routes Notions Spec.

(** The entry at an index of a page. *)
Lemma leaderboard_entry_position (page limit : nat)
    (rows : list (uuid * user_row)) (i : nat) (e : entry) :
  (1 <= page)%nat ->
  leaderboard page limit (range page limit rows) !! i = Some e ->
  (i < limit)%nat
  ∧ rank e = ((page - 1) * limit + i + 1)%nat
  ∧ ∃ u, rows !! (rank e - 1)%nat = Some u
         ∧ user_id e = u.1 ∧ e_xp e = xp u.2 ∧ level e = current_level u.2.
Proof.
  intros Hp. unfold leaderboard, range.
  rewrite list_lookup_imap_Some. intros (u & Hu & ->).
  apply lookup_take_Some in Hu as [Hu Hi]. rewrite lookup_drop in Hu.
  cbn [rank user_id e_xp level]. split; [assumption|]. split; [reflexivity|].
  exists u. rewrite Nat.add_sub. auto.
Qed.

(** X19.  Whatever the page, the rank printed beside an entry is the
    1-based position of its account in the whole ordered sequence, and a page
    never holds more than [limit] entries. *)
Theorem listed_rank_is_position (page limit : nat)
    (rows : list (uuid * user_row)) (i : nat) (e : entry) :
  (1 <= page)%nat ->
  leaderboard page limit (range page limit rows) !! i = Some e ->
  (i < limit)%nat
  ∧ rank e = ((page - 1) * limit + i + 1)%nat
  ∧ ∃ u, rows !! (rank e - 1)%nat = Some u
         ∧ user_id e = u.1 ∧ e_xp e = xp u.2 ∧ level e = current_level u.2.
Proof. exact (leaderboard_entry_position page limit rows i e). Qed.

Lemma listed_rank_is_position_witness :
  (0 < 2)%nat
  ∧ rank {| rank := 3; user_id := "c"; e_display_name := None;
            e_xp := Some 5; level := Some 1; e_streak := Some 0 |}
    = ((2 - 1) * 2 + 0 + 1)%nat.
Proof.
  destruct (listed_rank_is_position 2 2
              [("a"%string, account 9 1 0); ("b"%string, account 7 1 0);
               ("c"%string, account 5 1 0)] 0
              {| rank := 3; user_id := "c"; e_display_name := None;
                 e_xp := Some 5; level := Some 1; e_streak := Some 0 |})
    as (H1 & H2 & _); [lia|reflexivity|].
  split; assumption.
Defined.

Lemma filter_length_mono {A} (P Q : A -> Prop) `{!∀ x, Decision (P x)}
    `{!∀ x, Decision (Q x)} (l : list A) :
  (∀ x, P x -> Q x) -> (length (filter P l) <= length (filter Q l))%nat.
Proof.
  intros Himp. induction l as [|a l IH]; [reflexivity|].
  rewrite !filter_cons. destruct (decide (P a)) as [Hp|]; destruct (decide (Q a));
    cbn [length]; try lia.
  exfalso. auto.
Qed.

(** X20.  The rank the route computes for an account in the table lies
    between 1 and the number of accounts, and an account with at least as
    many points as another never has a worse rank than it. *)
Theorem currentUserRank_bounds (tbl : gmap uuid user_row) :
  (∀ u r, tbl !! u = Some r ->
     (1 <= currentUserRank tbl u <= size tbl)%nat)
  ∧ (∀ a b ra rb xa xb,
       tbl !! a = Some ra -> tbl !! b = Some rb ->
       xp ra = Some xa -> xp rb = Some xb -> xa <= xb ->
       (currentUserRank tbl b <= currentUserRank tbl a)%nat).
Proof.
  split.
  - intros u r Hr. unfold currentUserRank. rewrite Hr. cbn [mbind option_bind].
    split; [lia|]. rewrite <- length_map_to_list.
    assert (Hlt : (length (filter (fun r0 => gt_xp (default 0%Z (xp r)) r0 = true)
                             (map_to_list tbl))
                   < length (map_to_list tbl))%nat).
    { apply (length_filter_lt _ _ (u, r)); [now apply elem_of_map_to_list|].
      unfold gt_xp. cbn. destruct (xp r) as [x|]; [|discriminate].
      cbn. rewrite Z.ltb_irrefl. discriminate. }
    lia.
  - intros a b ra rb xa xb Ha Hb Hxa Hxb Hle. unfold currentUserRank.
    rewrite Ha, Hb. cbn [mbind option_bind]. rewrite Hxa, Hxb. cbn [default].
    apply Nat.add_le_mono_r, filter_length_mono. intros [id r0].
    unfold gt_xp. cbn. destruct (xp r0) as [x|]; [|discriminate].
    rewrite !Z.ltb_lt. lia.
Qed.

Lemma currentUserRank_bounds_witness :
  (1 <= currentUserRank abc "B" <= size abc)%nat
  ∧ (currentUserRank abc "C" <= currentUserRank abc "B")%nat.
Proof.
  split.
  - apply (proj1 (currentUserRank_bounds abc) "B" (account 500 3 2)).
    reflexivity.
  - apply (proj2 (currentUserRank_bounds abc) "B" "C" (account 500 3 2)
             (account 700 3 3) 500 700); try reflexivity. lia.
Defined.

End LeaderboardRoute.

(** ** Listed rank and computed rank *)
Section ListedRank.
Import Schema Leaderboard Routes Notions Spec.

Lemma by_xp_desc_trans : Transitive by_xp_desc.
Proof.
  intros [a ra] [b rb] [c rc]. unfold by_xp_desc, desc_leb. cbn.
  destruct (xp ra), (xp rb), (xp rc); cbn; try tauto.
  rewrite !Is_true_true, !Z.leb_le. lia.
Qed.

Lemma StronglySorted_lookup_lt {A} (R : relation A) (l : list A) (i j : nat)
    (x y : A) :
  StronglySorted R l -> l !! i = Some x -> l !! j = Some y -> (i < j)%nat ->
  R x y.
Proof.
  intros Hs Hi Hj Hlt. rewrite <- (take_drop_middle l i x Hi) in Hs.
  apply StronglySorted_app_1_r, StronglySorted_inv in Hs as [_ Hall].
  rewrite Forall_forall in Hall. apply Hall. apply list_elem_of_lookup.
  exists (j - S i)%nat. rewrite lookup_drop.
  now replace (S i + (j - S i))%nat with j by lia.
Qed.

(** In rows sorted on points, none of them [NULL], the accounts with more
    points than the one at position [i] all stand before it. *)
Lemma count_more_le_position (rows : list (uuid * user_row)) (i : nat)
    (u : uuid) (r : user_row) (x : Z) :
  Sorted by_xp_desc rows ->
  (∀ y, y ∈ rows -> is_Some (xp y.2)) ->
  rows !! i = Some (u, r) -> xp r = Some x ->
  filter (fun y => gt_xp x y = true) rows
  = filter (fun y => gt_xp x y = true) (take i rows).
Proof.
  intros Hs Hnn Hi Hx.
  apply (@Sorted_StronglySorted _ _ by_xp_desc_trans) in Hs.
  rewrite <- (take_drop_middle rows i (u, r) Hi) at 1.
  rewrite filter_app.
  rewrite (filter_nil_intro _ ((u, r) :: drop (S i) rows)); [apply app_nil_r|].
  intros y Hy. unfold gt_xp.
  assert (Hle : by_xp_desc (u, r) y ∨ y = (u, r)).
  { apply elem_of_cons in Hy as [->|Hy]; [now right|left].
    apply list_elem_of_lookup in Hy as [k Hk]. rewrite lookup_drop in Hk.
    apply (StronglySorted_lookup_lt _ rows i (S i + k) _ _ Hs Hi Hk). lia. }
  destruct Hle as [Hle| ->].
  - unfold by_xp_desc, desc_leb in Hle. cbn in Hle. rewrite Hx in Hle.
    destruct (xp y.2) as [z|]; [|discriminate].
    apply Is_true_true, Z.leb_le in Hle.
    destruct (Z.ltb_spec x z); [lia|discriminate].
  - cbn. rewrite Hx, Z.ltb_irrefl. discriminate.
Qed.

Lemma filter_all {A} (P : A -> Prop) `{!∀ x, Decision (P x)} (l : list A) :
  (∀ x, x ∈ l -> P x) -> filter P l = l.
Proof.
  induction l as [|a l IH]; intros Hall; [reflexivity|].
  rewrite filter_cons, decide_True by (apply Hall; left).
  f_equal. apply IH. intros x Hx. apply Hall. now right.
Qed.

Lemma count_more_eq_position (rows : list (uuid * user_row)) (i : nat)
    (u : uuid) (r : user_row) (x : Z) :
  Sorted by_xp_desc rows ->
  (∀ y, y ∈ rows -> is_Some (xp y.2)) ->
  NoDup rows ->
  (∀ y z, y ∈ rows -> z ∈ rows -> xp y.2 = xp z.2 -> y = z) ->
  rows !! i = Some (u, r) -> xp r = Some x ->
  length (filter (fun y => gt_xp x y = true) rows) = i.
Proof.
  intros Hs Hnn Hnd Hdist Hi Hx.
  rewrite (count_more_le_position rows i u r x Hs Hnn Hi Hx).
  apply (@Sorted_StronglySorted _ _ by_xp_desc_trans) in Hs.
  rewrite filter_all.
  { apply length_take_le. apply lookup_lt_Some in Hi. lia. }
  intros y Hy. apply list_elem_of_lookup in Hy as [k Hk].
  apply lookup_take_Some in Hk as [Hk Hlt].
  pose proof (StronglySorted_lookup_lt _ rows k i _ _ Hs Hk Hi Hlt) as Hle.
  unfold by_xp_desc, desc_leb in Hle. cbn in Hle. rewrite Hx in Hle.
  unfold gt_xp.
  destruct (Hnn y) as [z Hz]; [apply list_elem_of_lookup; eauto|].
  rewrite Hz in Hle |- *. apply Is_true_true, Z.leb_le in Hle.
  apply Z.ltb_lt. destruct (Z.eq_dec x z) as [->|]; [|lia]. exfalso.
  assert (Heq : y = (u, r)).
  { apply Hdist; [apply list_elem_of_lookup; eauto
                 |apply list_elem_of_lookup; eauto|].
    cbn. congruence. }
  subst y. apply (NoDup_lookup _ _ _ _ Hnd Hk) in Hi. lia.
Qed.

(** What the rows of a query tell about the table. *)
Lemma ordered_rows (tbl : gmap uuid user_row) (rows : list (uuid * user_row)) :
  ordered_by_xp tbl rows ->
  Sorted by_xp_desc rows ∧ NoDup rows
  ∧ (∀ id r, (id, r) ∈ rows <-> tbl !! id = Some r)
  ∧ ∀ (P : uuid * user_row -> Prop) `{!∀ x, Decision (P x)},
      length (filter P (map_to_list tbl)) = length (filter P rows).
Proof.
  intros [Hperm Hs]. split; [assumption|]. split; [|split].
  - rewrite Hperm. apply NoDup_map_to_list.
  - intros id r. rewrite Hperm. apply elem_of_map_to_list.
  - intros P HP. now rewrite Hperm.
Qed.

Lemma rank_of_row (tbl : gmap uuid user_row) (rows : list (uuid * user_row))
    (i : nat) (user : uuid) (r : user_row) :
  ordered_by_xp tbl rows -> xp_not_null tbl -> rows !! i = Some (user, r) ->
  (currentUserRank tbl user <= i + 1)%nat
  ∧ (xp_distinct tbl -> currentUserRank tbl user = (i + 1)%nat).
Proof.
  intros Hord Hnn Hi.
  destruct (ordered_rows tbl rows Hord) as (Hs & Hnd & Hin & Hlen).
  assert (Hr : tbl !! user = Some r).
  { apply Hin, list_elem_of_lookup. eauto. }
  destruct (Hnn user r Hr) as [x Hx].
  assert (Hnn' : ∀ y, y ∈ rows -> is_Some (xp y.2)).
  { intros [id ry] Hy. apply Hin in Hy. exact (Hnn id ry Hy). }
  unfold currentUserRank. rewrite Hr. cbn [mbind option_bind].
  rewrite Hx. change (default 0 (Some x)) with x. cbv zeta.
  rewrite Hlen. split.
  - rewrite (count_more_le_position rows i user r x Hs Hnn' Hi Hx).
    pose proof (length_filter (fun y => gt_xp x y = true) (take i rows)).
    pose proof (length_take rows i). lia.
  - intros Hd. f_equal.
    apply (count_more_eq_position rows i user r x Hs Hnn' Hnd); try assumption.
    intros [id1 r1] [id2 r2] H1 H2 Heq. cbn in Heq.
    apply Hin in H1, H2. pose proof (Hd id1 id2 r1 r2 H1 H2 Heq). subst id2.
    congruence.
Qed.

(** X21.  When no account has [NULL] points, the rank the route computes
    for the caller is never worse than the rank printed beside the caller's
    entry in the page, and when moreover no two accounts have the same
    points the two ranks are equal. *)
Theorem computed_rank_vs_listed_rank (tbl : gmap uuid user_row) (user : uuid)
    (page limit : nat) (resp : response) (e : entry) :
  GET tbl user page limit resp -> (1 <= page)%nat -> xp_not_null tbl ->
  e ∈ data resp -> user_id e = user ->
  (current_user_rank resp <= rank e)%nat
  ∧ (xp_distinct tbl -> current_user_rank resp = rank e).
Proof.
  intros (rows & Hord & ->) Hp Hnn He Hu. cbn [data current_user_rank] in *.
  apply list_elem_of_lookup in He as [i Hi].
  destruct (leaderboard_entry_position page limit rows i e Hp Hi)
    as (_ & Hrank & [id r] & Hrow & Hid & _).
  cbn in Hid. rewrite Hu in Hid. subst id.
  destruct (rank_of_row tbl rows (rank e - 1) user r Hord Hnn Hrow) as [Hle Heq].
  assert (Hge : (1 <= rank e)%nat)
    by (rewrite Hrank, Nat.add_1_r; apply Nat.lt_0_succ).
  clear Hrank. replace (rank e - 1 + 1)%nat with (rank e) in * by lia. auto.
Qed.

End ListedRank.

(** ** The leaderboard page and the view *)
Section PageAndView.
Import Schema Leaderboard Routes Notions Spec.

Lemma xp_not_null_abc : xp_not_null abc.
Proof.
  intros id r H. unfold abc in H.
  repeat (apply lookup_insert_Some in H as [[_ <-]|[_ H]];
          [eexists; reflexivity|]).
  rewrite lookup_empty in H. discriminate H.
Defined.

Lemma ordered_abc : ordered_by_xp abc (map_to_list abc).
Proof.
  split; [reflexivity|]. vm_compute. repeat (constructor; try exact I).
Defined.

Lemma GET_abc :
  GET abc "C" 1 50
    {| data := leaderboard 1 50 (range 1 50 (map_to_list abc));
       meta_page := 1; meta_limit := 50; total := size abc;
       current_user_rank := currentUserRank abc "C" |}.
Proof.
  exists (map_to_list abc). split; [exact ordered_abc|reflexivity].
Defined.

Lemma computed_rank_vs_listed_rank_witness :
  (currentUserRank abc "C" <= 1)%nat.
Proof.
  refine (proj1 (computed_rank_vs_listed_rank abc "C" 1 50 _
                   {| rank := 1; user_id := "C"; e_display_name := None;
                      e_xp := Some 700; level := Some 3; e_streak := Some 0 |}
                   GET_abc _ xp_not_null_abc _ _)).
  - lia.
  - vm_compute. apply list_elem_of_here.
  - reflexivity.
Defined.

(** X22.  The leaderboard page shows rank 0 for a user who has no row,
    never for one who has when there are at most 50 accounts; a rank it does
    show lies within the first 50, is never better than the rank the API
    route computes and, when no two accounts have the same points, equals
    it (no account having [NULL] points). *)
Theorem page_rank_vs_route_rank (tbl : gmap uuid user_row) (user : uuid)
    (k : nat) :
  LeaderboardPage tbl user k -> xp_not_null tbl ->
  (tbl !! user = None -> k = 0%nat)
  ∧ (is_Some (tbl !! user) -> (size tbl <= 50)%nat -> k ≠ 0%nat)
  ∧ (k ≠ 0%nat ->
     (currentUserRank tbl user <= k <= 50)%nat
     ∧ (xp_distinct tbl -> currentUserRank tbl user = k)).
Proof.
  intros (rows & Hord & ->) Hnn. unfold pageUserRank.
  destruct (ordered_rows tbl rows Hord) as (_ & _ & Hin & _).
  destruct (list_find (fun u => u.1 = user) (take 50 rows)) as [[i [id r]]|] eqn:Ef.
  - apply list_find_Some in Ef as (Hi & Hid & _). cbn in Hid. subst id.
    apply lookup_take_Some in Hi as [Hi Hlt].
    split; [|split].
    + intros Hnone. exfalso.
      assert (Hsome : tbl !! user = Some r)
        by (apply Hin, list_elem_of_lookup; eauto).
      congruence.
    + intros _ _. lia.
    + intros _. destruct (rank_of_row tbl rows i user r Hord Hnn Hi) as [Hle Heq].
      split; [lia|exact Heq].
  - split; [reflexivity|]. split; [|congruence].
    intros [r Hr] Hsize. exfalso.
    apply list_find_None in Ef. rewrite Forall_forall in Ef.
    apply Hin, list_elem_of_lookup in Hr as [i Hi].
    apply (Ef (user, r)); [|reflexivity].
    apply list_elem_of_lookup. exists i. apply lookup_take_Some.
    split; [assumption|]. apply lookup_lt_Some in Hi.
    destruct Hord as [Hperm _]. rewrite Hperm, length_map_to_list in Hi. lia.
Qed.

Lemma page_rank_vs_route_rank_witness :
  (currentUserRank abc "C" <= pageUserRank "C" (map_to_list abc) <= 50)%nat.
Proof.
  refine (proj1 (proj2 (proj2 (page_rank_vs_route_rank abc "C" _
                                 (ex_intro _ (map_to_list abc)
                                    (conj ordered_abc eq_refl))
                                 xp_not_null_abc)) _)).
  vm_compute. discriminate.
Defined.

Lemma view_le_trans : Transitive view_le.
Proof.
  intros [a ra] [b rb] [c rc]. unfold view_le, view_leb, desc_leb, asc_leb. cbn.
  destruct (xp ra), (xp rb), (xp rc), (created_at ra), (created_at rb),
    (created_at rc); cbn; rewrite ?Is_true_true;
    rewrite ?orb_true_iff, ?andb_true_iff, ?negb_true_iff, ?Z.leb_le, ?Z.leb_gt;
    try tauto; try lia; intuition (try discriminate; lia).
Qed.

Lemma view_le_total : Total view_le.
Proof.
  intros [a ra] [b rb]. unfold view_le, view_leb, desc_leb, asc_leb. cbn.
  destruct (xp ra), (xp rb), (created_at ra), (created_at rb); cbn;
    rewrite ?Is_true_true;
    rewrite ?orb_true_iff, ?andb_true_iff, ?negb_true_iff, ?Z.leb_le, ?Z.leb_gt;
    try tauto; try lia; intuition (try discriminate; lia).
Qed.

(** The row the view shows with rank [k] is the [k]-th of the sorted
    table. *)
Lemma view_rank_row (tbl : gmap uuid user_row) (ubs : list user_badge_row)
    (id : uuid) (k : nat) :
  view_rank tbl ubs id = Some k ->
  ∃ r, merge_sort view_le (map_to_list tbl) !! (k - 1)%nat = Some (id, r)
       ∧ (1 <= k <= 100)%nat ∧ tbl !! id = Some r.
Proof.
  unfold view_rank, leaderboard_view. rewrite fmap_Some.
  intros (row & Hf & ->). apply find_some in Hf as [Hin Hid].
  apply bool_decide_eq_true in Hid.
  apply list_elem_of_In, list_elem_of_lookup in Hin as [i Hi].
  apply lookup_take_Some in Hi as [Hi Hlt].
  apply list_lookup_imap_Some in Hi as ([id' r] & Hrow & ->).
  cbn in Hid. subst id'. cbn [v_rank]. exists r.
  replace (S i - 1)%nat with i by lia. split; [assumption|]. split; [lia|].
  apply elem_of_map_to_list. rewrite <- (merge_sort_Permutation view_le).
  apply list_elem_of_lookup. eauto.
Qed.

(** X23.  In the view [leaderboard] the rows carry the ranks 1, 2, 3, ...
    in order, at most 100 of them; no two accounts have the same rank; and
    an account ranks better than another whenever it has more points, or as
    many points and an earlier creation instant. *)
Theorem view_ranks (tbl : gmap uuid user_row) (ubs : list user_badge_row) :
  length (leaderboard_view tbl ubs) = min 100 (size tbl)
  ∧ (∀ i row, leaderboard_view tbl ubs !! i = Some row -> v_rank row = S i)
  ∧ (∀ a b k, view_rank tbl ubs a = Some k -> view_rank tbl ubs b = Some k ->
       a = b)
  ∧ (∀ a b ka kb ra rb xa xb,
       view_rank tbl ubs a = Some ka -> view_rank tbl ubs b = Some kb ->
       tbl !! a = Some ra -> tbl !! b = Some rb ->
       xp ra = Some xa -> xp rb = Some xb ->
       xb < xa
       ∨ (xa = xb ∧ ∃ ca cb, created_at ra = Some ca ∧ created_at rb = Some cb
                            ∧ ca < cb) ->
       (ka < kb)%nat).
Proof.
  split; [|split; [|split]].
  - unfold leaderboard_view.
    rewrite length_take, length_imap, (merge_sort_Permutation view_le),
      length_map_to_list. reflexivity.
  - unfold leaderboard_view. intros i row Hi.
    apply lookup_take_Some in Hi as [Hi _].
    apply list_lookup_imap_Some in Hi as (u & _ & ->). reflexivity.
  - intros a b k Ha Hb.
    destruct (view_rank_row _ _ _ _ Ha) as (ra & Hra & _).
    destruct (view_rank_row _ _ _ _ Hb) as (rb & Hrb & _). congruence.
  - intros a b ka kb ra rb xa xb Ha Hb Hta Htb Hxa Hxb Hbefore.
    destruct (view_rank_row _ _ _ _ Ha) as (ra' & Hra & Hka & Hta').
    destruct (view_rank_row _ _ _ _ Hb) as (rb' & Hrb & Hkb & Htb').
    assert (ra' = ra) by congruence. assert (rb' = rb) by congruence.
    subst ra' rb'.
    assert (Hstrict : ¬ view_le (b, rb) (a, ra)).
    { unfold view_le, view_leb, desc_leb, asc_leb. cbn. rewrite Hxa, Hxb.
      destruct Hbefore as [Hlt|(-> & ca & cb & -> & -> & Hlt)];
        rewrite Is_true_true, orb_true_iff, andb_true_iff, negb_true_iff,
          !Z.leb_le, Z.leb_gt; lia. }
    destruct (Nat.lt_ge_cases ka kb) as [|Hge]; [assumption|]. exfalso.
    apply Hstrict.
    destruct (Nat.eq_dec ka kb) as [->|Hne].
    + assert ((a, ra) = (b, rb)) as -> by congruence.
      destruct (view_le_total (b, rb) (b, rb)); assumption.
    + apply (StronglySorted_lookup_lt view_le
               (merge_sort view_le (map_to_list tbl)) (kb - 1) (ka - 1));
        [|assumption|assumption|lia].
      apply (@StronglySorted_merge_sort _ view_le _ view_le_trans view_le_total).
Qed.

Lemma view_ranks_witness :
  (∀ a b k, view_rank abc [] a = Some k -> view_rank abc [] b = Some k -> a = b)
  ∧ (2 < 3)%nat.
Proof.
  split.
  - apply (proj1 (proj2 (proj2 (view_ranks abc [])))).
  - apply (proj2 (proj2 (proj2 (view_ranks abc []))) "A" "B" 2%nat 3%nat
             (account 500 3 1) (account 500 3 2) 500 500);
      try reflexivity.
    right. split; [reflexivity|]. exists 1, 2. repeat split.
Defined.

End PageAndView.

(** ** The streak route *)
Section StreakRoute.
Import Gamification Schema Routes Notions Spec.

Lemma hours_elapsed_le (c n : Z) :
  (inject_Z c <= inject_Z n / inject_Z (1000 * 60 * 60))%Q <-> hours c <= n.
Proof.
  unfold hours. change (1000 * 60 * 60) with 3600000.
  unfold Qle, Qdiv, Qmult, Qinv. cbn. lia.
Qed.

Lemma hours_elapsed_lt (c n : Z) :
  (inject_Z n / inject_Z (1000 * 60 * 60) < inject_Z c)%Q <-> n < hours c.
Proof.
  unfold hours. change (1000 * 60 * 60) with 3600000.
  unfold Qlt, Qdiv, Qmult, Qinv. cbn. lia.
Qed.

(** X24.  On a row with a last activity and a streak, the streak route
    answers with the streak and the broken flag that [calculateStreak]
    computes from them; on a row whose last activity is [NULL] it counts the
    hours from the epoch, so from 48 hours after the epoch on it answers with
    a streak of 1, broken. *)
Theorem streak_route_answer (Date_parse : string -> Date) (now : Z)
    (userId : uuid) (user : user_row) (tbl : gmap uuid user_row) :
  (∀ t s, last_activity user = Some t -> streak user = Some s ->
     sr_streak (streak_route now userId user tbl).1
     = Some (Gamification.streak (calculateStreak Date_parse now (OfDate (ValidDate t)) (Some s)))
     ∧ streak_broken (streak_route now userId user tbl).1
       = Gamification.broken (calculateStreak Date_parse now (OfDate (ValidDate t)) (Some s)))
  ∧ (last_activity user = None -> hours 48 <= now ->
     (streak_route now userId user tbl).1
     = {| sr_streak := Some 1; streak_maintained := false;
          streak_broken := true |}).
Proof.
  split.
  - intros t s Ht Hs. unfold streak_route, calculateStreak, hoursSince.
    rewrite Ht, Hs. cbn [default getTime js_lt from_option id].
    cbv zeta. cbn [js_lt].
    destruct (Qltb _ 24); [split; reflexivity|].
    destruct (Qltb _ 48); split; reflexivity.
  - intros Hnone Hnow. unfold streak_route. rewrite Hnone.
    cbn [default from_option id]. cbv zeta. rewrite Z.sub_0_r.
    assert (H48 : (48 <= inject_Z now / inject_Z (1000 * 60 * 60))%Q).
    { now apply (hours_elapsed_le 48). }
    assert (H24 : (24 <= inject_Z now / inject_Z (1000 * 60 * 60))%Q).
    { apply Qle_trans with 48%Q; [discriminate|exact H48]. }
    apply Qltb_ge in H24, H48. rewrite H24, H48. reflexivity.
Qed.

Lemma streak_route_answer_witness :
  sr_streak (streak_route (hours 30) "u" (only_u_row 5 0) (only_u_streak 5 0)).1
  = Some (Gamification.streak (calculateStreak parse_nothing (hours 30)
                    (OfDate (ValidDate 0)) (Some 5)))
  ∧ streak_broken
      (streak_route (hours 30) "u" (only_u_row 5 0) (only_u_streak 5 0)).1
    = Gamification.broken (calculateStreak parse_nothing (hours 30)
                (OfDate (ValidDate 0)) (Some 5)).
Proof.
  apply (proj1 (streak_route_answer parse_nothing (hours 30) "u"
                  (only_u_row 5 0) (only_u_streak 5 0)) 0 5); reflexivity.
Defined.

Lemma update_streak_row (now : Z) (id : uuid) (v : Z) (r : user_row)
    (tbl : gmap uuid user_row) :
  tbl !! id = Some r -> users_checks r = true ->
  0 <= v <= INT4_MAX ->
  update_streak now id v tbl
  = <[id := update_updated_at_column now (set_streak v r)]> tbl.
Proof.
  change INT4_MAX with 2147483647. intros Hr Hc Hv. unfold update_streak.
  rewrite in_int4_true by lia. unfold update_users. rewrite Hr.
  assert (Hc' : users_checks (update_updated_at_column now (set_streak v r))
                = true).
  { unfold users_checks in *. cbn.
    apply andb_true_iff in Hc as [Hc Hl]. apply andb_true_iff in Hc as [Hx _].
    rewrite Hx, Hl. destruct (Z.leb_spec 0 v); [reflexivity|lia]. }
  now rewrite Hc'.
Qed.

Lemma update_streak_frame (now : Z) (id : uuid) (v : Z)
    (tbl : gmap uuid user_row) (id' : uuid) (r' : user_row) :
  update_streak now id v tbl !! id' = Some r' ->
  ∃ r, tbl !! id' = Some r
       ∧ xp r' = xp r ∧ current_level r' = current_level r
       ∧ last_activity r' = last_activity r ∧ created_at r' = created_at r
       ∧ (id' ≠ id -> r' = r).
Proof.
  unfold update_streak, update_users.
  destruct (in_int4 v); [|intros H; exists r'; auto 10].
  destruct (tbl !! id) as [r|] eqn:Er; [|intros H; exists r'; auto 10].
  destruct (users_checks _); [|intros H; exists r'; auto 10].
  destruct (decide (id' = id)) as [->|Hne].
  - rewrite lookup_insert_eq. intros [= <-]. exists r.
    repeat split; try assumption; try reflexivity. intros Hn. now destruct Hn.
  - rewrite lookup_insert_ne by auto. intros H. exists r'. auto 10.
Qed.

(** X25.  The streak route writes the streak and nothing else: whatever it
    answers, every row keeps its points, level, last activity and creation
    instant, and rows of other accounts are unchanged.  As the last activity
    stays, a second call between 24 and 48 hours after it counts a second
    day: two such calls take a streak of [s] to [s + 2]. *)
Theorem streak_route_keeps_last_activity (now1 now2 : Z) (userId : uuid)
    (tbl : gmap uuid user_row) :
  (∀ user id r',
     (streak_route now1 userId user tbl).2 !! id = Some r' ->
     ∃ r, tbl !! id = Some r
          ∧ xp r' = xp r ∧ current_level r' = current_level r
          ∧ last_activity r' = last_activity r ∧ created_at r' = created_at r
          ∧ (id ≠ userId -> r' = r))
  ∧ (∀ user t s,
       tbl !! userId = Some user -> users_checks user = true ->
       last_activity user = Some t -> streak user = Some s ->
       s + 2 <= INT4_MAX ->
       hours 24 <= now1 - t < hours 48 -> hours 24 <= now2 - t < hours 48 ->
       ∃ user1 user2,
         (streak_route now1 userId user tbl).2 !! userId = Some user1
         ∧ streak user1 = Some (s + 1)
         ∧ (streak_route now2 userId user1
              (streak_route now1 userId user tbl).2).2 !! userId = Some user2
         ∧ streak user2 = Some (s + 2)
         ∧ last_activity user2 = Some t).
Proof.
  split.
  - intros user id r'. unfold streak_route. cbv zeta.
    destruct (Qltb _ 24); cbn [snd]; [intros H; exists r'; auto 10|].
    destruct (Qltb _ 48); cbn [snd]; apply update_streak_frame.
  - intros user t s Hu Hc Ht Hs Hmax H1 H2.
    assert (H0 : 0 <= s).
    { unfold users_checks in Hc. rewrite Hs in Hc.
      apply andb_true_iff in Hc as [Hc _]. apply andb_true_iff in Hc as [_ Hc].
      cbn in Hc. now apply Z.leb_le in Hc. }
    assert (Hwin : ∀ now, hours 24 <= now - t < hours 48 ->
              Qltb (inject_Z (now - t) / inject_Z (1000 * 60 * 60)) 24 = false
              ∧ Qltb (inject_Z (now - t) / inject_Z (1000 * 60 * 60)) 48 = true).
    { intros now [Hlo Hhi]. split.
      - apply Qltb_ge. now apply (hours_elapsed_le 24).
      - apply Qltb_lt. now apply (hours_elapsed_lt 48). }
    revert Hmax. change INT4_MAX with 2147483647. intros Hmax.
    set (user1 := update_updated_at_column now1 (set_streak (s + 1) user)).
    assert (E1 : (streak_route now1 userId user tbl).2 = <[userId := user1]> tbl).
    { unfold streak_route. rewrite Ht, Hs. cbn [default from_option id]. cbv zeta.
      destruct (Hwin now1 H1) as [-> ->]. cbn [snd].
      apply update_streak_row; try assumption.
      change INT4_MAX with 2147483647. lia. }
    assert (Hc1 : users_checks user1 = true).
    { unfold users_checks in *. cbn. 
      apply andb_true_iff in Hc as [Hc Hl]. apply andb_true_iff in Hc as [Hx _].
      rewrite Hx, Hl. destruct (Z.leb_spec 0 (s + 1)); [reflexivity|lia]. }
    exists user1, (update_updated_at_column now2 (set_streak (s + 2) user1)).
    rewrite E1, lookup_insert_eq. split; [reflexivity|]. split; [reflexivity|].
    split; [|split; [reflexivity|exact Ht]].
    unfold streak_route. 
    change (last_activity user1) with (last_activity user). rewrite Ht.
    change (streak user1) with (Some (s + 1)).
    cbn [default from_option id]. cbv zeta.
    destruct (Hwin now2 H2) as [-> ->]. cbn [snd].
    rewrite (update_streak_row now2 userId (s + 1 + 1) user1);
      [|apply lookup_insert_eq|assumption|change INT4_MAX with 2147483647; lia].
    rewrite lookup_insert_eq. do 3 f_equal. lia.
Qed.

Lemma streak_route_keeps_last_activity_witness :
  ∃ user1 user2,
    (streak_route (hours 30) "u" (only_u_row 5 0) (only_u_streak 5 0)).2
      !! "u"%string = Some user1
    ∧ streak user1 = Some (5 + 1)
    ∧ (streak_route (hours 31) "u" user1
         (streak_route (hours 30) "u" (only_u_row 5 0) (only_u_streak 5 0)).2).2
        !! "u"%string = Some user2
    ∧ streak user2 = Some (5 + 2)
    ∧ last_activity user2 = Some 0.
Proof.
  apply (proj2 (streak_route_keeps_last_activity (hours 30) (hours 31) "u"
                  (only_u_streak 5 0)) (only_u_row 5 0) 0 5);
    try reflexivity; vm_compute; intuition discriminate.
Defined.

End StreakRoute.

(** ** The badges and camps routes *)
Section BadgesAndCamps.
Import Gamification Schema ApiModule Routes Notions Spec.

Lemma earnedAtMap_lookup (l : list user_badge_row) (b : uuid) :
  ∀ m : gmap uuid Z,
  foldl (fun m ub => <[ub_badge_id ub := earned_at ub]> m) m l !! b
  = match last (filter (fun ub => ub_badge_id ub = b) l) with
    | Some ub => Some (earned_at ub)
    | None => m !! b
    end.
Proof.
  induction l as [|ub l IH]; intros m; [reflexivity|].
  cbn [foldl]. rewrite IH, filter_cons.
  destruct (decide (ub_badge_id ub = b)) as [<-|Hne].
  - destruct (filter _ l) as [|x xs] eqn:Ef; [now rewrite lookup_insert_eq|].
    rewrite last_cons_cons.
    destruct (last (x :: xs)) eqn:El; [reflexivity|].
    apply last_None in El. discriminate El.
  - destruct (last (filter _ l)); [reflexivity|].
    now rewrite lookup_insert_ne.
Qed.

Lemma earned_iff (user : uuid) (b : uuid) (awards : list user_badge_row) :
  b ∈ (list_to_set (ub_badge_id <$>
         filter (fun ub => ub_user_id ub = user) awards) : gset uuid)
  <-> awards_of user b awards ≠ [].
Proof.
  rewrite elem_of_list_to_set, list_elem_of_fmap. unfold awards_of. split.
  - intros (ub & -> & Hin). apply list_elem_of_filter in Hin as [Hu Hin].
    intros Hnil. apply (filter_nil_not_elem_of _ _ ub Hnil); auto.
  - intros Hne. destruct (filter _ awards) as [|ub l] eqn:Ef; [contradiction|].
    assert (Hin : ub ∈ filter (fun ub => ub_user_id ub = user
                                         ∧ ub_badge_id ub = b) awards)
      by (rewrite Ef; left).
    apply list_elem_of_filter in Hin as [[Hu Hb] Hin].
    exists ub. split; [auto|]. apply list_elem_of_filter. auto.
Qed.

Lemma user_badge_ids_NoDup (user : uuid) (awards : list user_badge_row) :
  NoDup (pk <$> awards) ->
  NoDup (ub_badge_id <$> filter (fun ub => ub_user_id ub = user) awards).
Proof.
  induction awards as [|ub l IH]; intros Hnd; [constructor|].
  rewrite fmap_cons in Hnd. apply NoDup_cons in Hnd as [Hnot Hnd].
  rewrite filter_cons. destruct (decide (ub_user_id ub = user)) as [Hu|]; [|auto].
  rewrite fmap_cons. apply NoDup_cons. split; [|auto].
  intros Hin. apply Hnot. apply list_elem_of_fmap in Hin as (ub' & Hb & Hin').
  apply list_elem_of_filter in Hin' as [Hu' Hin'].
  apply list_elem_of_fmap. exists ub'. split; [|assumption].
  unfold pk. congruence.
Qed.

(** X26.  The badges route lists the whole catalog in its order; a badge
    is marked earned exactly when the user has an award for it, and then
    carries the instant of that award; and under the tables' keys the number
    of badges marked earned is the number of the user's awards, the count the
    dashboard shows. *)
Theorem enrichedBadges_earned (user : uuid) (badges : list badge_row)
    (awards : list user_badge_row) :
  eb_badge <$> enrichedBadges user badges awards = badges
  ∧ (∀ eb, eb ∈ enrichedBadges user badges awards ->
       (earned eb = true
        <-> awards_of user (b_id (eb_badge eb)) awards ≠ [])
       ∧ (earned eb = false -> eb_earned_at eb = None)
       ∧ (NoDup (pk <$> awards) -> earned eb = true ->
          ∃ ub, awards_of user (b_id (eb_badge eb)) awards = [ub]
                ∧ eb_earned_at eb = Some (earned_at ub)))
  ∧ (NoDup (b_id <$> badges) -> NoDup (pk <$> awards) ->
     (∀ ub, ub ∈ awards -> ub_badge_id ub ∈ b_id <$> badges) ->
     length (filter (fun eb => earned eb = true)
               (enrichedBadges user badges awards))
     = badgesEarned user awards).
Proof.
  unfold enrichedBadges. cbv zeta.
  set (userBadges := filter (fun ub => ub_user_id ub = user) awards).
  assert (Hsame : ∀ b, filter (fun ub => ub_badge_id ub = b) userBadges
                       = awards_of user b awards).
  { intros b. unfold userBadges, awards_of. rewrite list_filter_filter.
    apply list_filter_iff. tauto. }
  split; [|split].
  - rewrite <- list_fmap_compose. apply list_fmap_id.
  - intros eb Hin. apply list_elem_of_fmap in Hin as (badge & -> & _).
    cbn [earned eb_badge eb_earned_at]. unfold earnedAtMap.
    rewrite earnedAtMap_lookup, Hsame. unfold userBadges.
    assert (Hearned : bool_decide
              (b_id badge ∈ (list_to_set (ub_badge_id <$>
                 filter (fun ub => ub_user_id ub = user) awards) : gset uuid))
              = true <-> awards_of user (b_id badge) awards ≠ []).
    { etrans; [apply bool_decide_eq_true|apply earned_iff]. }
    split; [exact Hearned|]. split.
    + intros Hf.
      destruct (awards_of user (b_id badge) awards) eqn:Ea; [reflexivity|].
      exfalso. rewrite (proj2 Hearned) in Hf; discriminate.
    + intros Hnd Hne. apply Hearned in Hne.
      pose proof (pk_at_most_one (user, b_id badge) awards Hnd) as Hone.
      rewrite <- awards_of_pk in Hone.
      destruct (awards_of user (b_id badge) awards) as [|ub [|ub' l]];
        [contradiction| |cbn in Hone; lia].
      exists ub. split; reflexivity.
  - intros Hb Hpk Hfk. unfold badgesEarned. fold userBadges.
    rewrite <- (length_fmap ub_badge_id userBadges).
    transitivity (length (filter (fun id => id ∈ ub_badge_id <$> userBadges)
                            (b_id <$> badges))).
    + clear. induction badges as [|badge l IH]; [reflexivity|].
      rewrite !fmap_cons, !filter_cons. cbn [earned].
      destruct (decide (b_id badge ∈ ub_badge_id <$> userBadges)) as [Hin|Hn].
      * rewrite decide_True
          by (apply bool_decide_eq_true, elem_of_list_to_set, Hin).
        cbn [length]. now rewrite IH.
      * rewrite decide_False; [exact IH|].
        rewrite bool_decide_eq_true, elem_of_list_to_set. exact Hn.
    + apply Permutation_length, NoDup_Permutation.
      * apply NoDup_filter, Hb.
      * apply user_badge_ids_NoDup, Hpk.
      * intros id. rewrite list_elem_of_filter. split; [tauto|].
        intros Hin. split; [assumption|].
        apply list_elem_of_fmap in Hin as (ub & -> & Hin).
        apply list_elem_of_filter in Hin as [_ Hin]. now apply Hfk.
Qed.

Lemma enrichedBadges_earned_witness :
  length (filter (fun eb => earned eb = true)
            (enrichedBadges "u" (badges sample_db)
               [{| ub_user_id := "u"; ub_badge_id := "first"; earned_at := 5 |};
                {| ub_user_id := "v"; ub_badge_id := "week"; earned_at := 6 |}]))
  = badgesEarned "u"
      [{| ub_user_id := "u"; ub_badge_id := "first"; earned_at := 5 |};
       {| ub_user_id := "v"; ub_badge_id := "week"; earned_at := 6 |}].
Proof.
  apply (proj2 (proj2 (enrichedBadges_earned "u" (badges sample_db) _))).
  - refine (bool_decide_unpack _ _). vm_compute. exact I.
  - refine (bool_decide_unpack _ _). vm_compute. exact I.
  - intros ub Hin. repeat (apply elem_of_cons in Hin as [->|Hin]);
      [| |inversion Hin]; refine (bool_decide_unpack _ _); vm_compute; exact I.
Defined.

(** X27.  On an account whose stored level is the level of its points,
    the camps route answers for every camp, in order, before and after an
    award of a non-negative amount, and the award never locks a camp again:
    every camp unlocked before it is unlocked after it. *)
Theorem camps_stay_unlocked (now : Z) (user : uuid) (r : user_row) (x a : Z)
    (tbl : gmap uuid user_row) (camps : list camp_row) :
  tbl !! user = Some r -> users_checks r = true ->
  xp r = Some x -> current_level r = Some (calculateLevel x) ->
  0 <= a -> x + a <= INT4_MAX ->
  ∃ res tbl' before after,
    award_xp now user (Some a) tbl = Ok (res, tbl')
    ∧ enrichedCamps user tbl camps = Some before
    ∧ enrichedCamps user tbl' camps = Some after
    ∧ fst <$> before = camps ∧ fst <$> after = camps
    ∧ ∀ camp, (camp, true) ∈ before -> (camp, true) ∈ after.
Proof.
  intros Hr Hc Hx Hl Ha Hmax.
  assert (H0 : 0 <= x).
  { unfold users_checks in Hc. rewrite Hx in Hc. cbn in Hc.
    destruct (Z.leb_spec 0 x); [assumption|discriminate]. }
  eexists _, _, _, _.
  split; [apply (award_xp_ok now user r x a tbl Hr Hx Hc); lia|].
  unfold enrichedCamps. rewrite Hr, lookup_insert_eq. cbn [mbind option_bind].
  split; [reflexivity|]. split; [reflexivity|].
  rewrite <- !list_fmap_compose.
  split; [apply list_fmap_id|]. split; [apply list_fmap_id|].
  intros camp Hin. apply list_elem_of_fmap in Hin as (c & Heq & Hin).
  injection Heq as <- Hun. apply list_elem_of_fmap. exists camp.
  split; [|assumption]. f_equal. symmetry. rewrite Hl in Hun.
  cbn [current_level set_xp_level].
  pose proof (calculateLevel_ge_1 x) as H1.
  pose proof (calculateLevel_ge_1 (x + a)) as H2.
  pose proof (calculateLevel_mono x (x + a) ltac:(lia)) as Hm.
  assert (Hjs : ∀ l, 1 <= l -> js_or (Some l) 1 = l).
  { intros l Hl1. unfold js_or. destruct (Z.eqb_spec l 0); [lia|reflexivity]. }
  rewrite Hjs in * by assumption.
  symmetry in Hun. apply Z.geb_le in Hun. apply Z.geb_le. lia.
Qed.

Lemma camps_stay_unlocked_witness :
  ∃ res tbl' before after,
    award_xp 7 "u" (Some 10) (only_u 90 1) = Ok (res, tbl')
    ∧ enrichedCamps "u" (only_u 90 1)
        [{| camp_id := "c1"; unlock_level := Some 1 |};
         {| camp_id := "c2"; unlock_level := Some 2 |}] = Some before
    ∧ enrichedCamps "u" tbl'
        [{| camp_id := "c1"; unlock_level := Some 1 |};
         {| camp_id := "c2"; unlock_level := Some 2 |}] = Some after
    ∧ fst <$> before = [{| camp_id := "c1"; unlock_level := Some 1 |};
                        {| camp_id := "c2"; unlock_level := Some 2 |}]
    ∧ fst <$> after = [{| camp_id := "c1"; unlock_level := Some 1 |};
                       {| camp_id := "c2"; unlock_level := Some 2 |}]
    ∧ ∀ camp, (camp, true) ∈ before -> (camp, true) ∈ after.
Proof.
  apply (camps_stay_unlocked 7 "u" (account 90 1 0) 90 10 (only_u 90 1));
    try reflexivity; try lia.
  vm_compute. discriminate.
Defined.

End BadgesAndCamps.

(** ** The XP bar *)
Section XPBarShown.
Import Gamification Schema Routes Notions Spec.




End XPBarShown.
